(** * A shallow embedding of the forta-node Fleet Supervisor
      (services/containers/supervision.go) and Inspection Scheduler
      (services/inspector/inspector.go). *)

From Stdlib Require Import String List ZArith Bool Lia Permutation.
Import ListNotations.
Open Scope string_scope.

(** Go error values met by the two services.  [ErrAlreadyExistsInNetwork]
    is the sentinel [clients.ErrAlreadyExistsInNetwork] compared with [==];
    [ErrStopFailed] is the [fmt.Errorf("failed to stop container '%s': %v")]
    wrapper of handleAgentStop. *)
Inductive goerr :=
| ErrAlreadyExistsInNetwork
| ErrMsg (msg : string)
| ErrStopFailed (containerID : string) (cause : goerr).

Definition isErrAlreadyExistsInNetwork (e : goerr) : bool :=
  match e with ErrAlreadyExistsInNetwork => true | _ => false end.

(** A fallible call of an external client: a value or an error. *)
Inductive result (A : Type) :=
| Ok (a : A)
| Err (e : goerr).
Arguments Ok {A} a.
Arguments Err {A} e.

Module Containers.

(** config.AgentConfig: the agent's ID and its image reference. *)
Record AgentConfig := mkAgentConfig { AgentID : string; AgentImage : string }.

Definition AgentConfig_eqb (a b : AgentConfig) : bool :=
  String.eqb (AgentID a) (AgentID b) && String.eqb (AgentImage a) (AgentImage b).

(** clients.DockerContainer: the name and the runtime-assigned ID. *)
Record DockerContainer := mkDockerContainer { Name : string; ID : string }.

(** clients.DockerContainerConfig, with the fields startAgent fills from the
    agent.  The log-rotation and resource-limit fields are static
    configuration, identical for every agent, and are left out. *)
Record DockerContainerConfig := mkDockerContainerConfig {
  dc_Name : string;
  dc_Image : string;
  dc_NetworkID : string;
  dc_LinkNetworkIDs : list string;
  dc_Env : list (string * string) }.

(** Calls on the container runtime client. *)
Inductive call :=
| EnsureLocalImage (name image : string) (pull : bool)
| CreatePublicNetwork (name : string)
| StartContainer (cfg : DockerContainerConfig)
| AttachNetwork (containerID networkID : string)
| StopContainer (containerID : string).

(** Message bus subjects published by the supervisor. *)
Inductive subject := SubjectAgentsStatusRunning | SubjectAgentsStatusStopped.

(** Log lines written by the handlers. *)
Inductive logmsg :=
| LogHandleAgentRun (n : nat)
| LogAlreadyRunning (name : string)
| LogStartFailed (e : goerr)
| LogStopSkipped (name : string)
| LogStopped (name : string).

(** Everything observable the supervisor does: runtime calls, publications
    and log lines. *)
Inductive event :=
| Call (c : call)
| Publish (subj : subject) (payload : list AgentConfig)
| Log (m : logmsg).

(** The container runtime: each operation answers as a function of the
    history of everything done so far (newest first), so any deterministic
    stateful runtime is an instance. *)
Record Runtime := mkRuntime {
  rt_ensureLocalImage : list event -> string -> string -> bool -> option goerr;
  rt_createPublicNetwork : list event -> string -> result string;
  rt_startContainer : list event -> DockerContainerConfig -> result string;
  rt_attachNetwork : list event -> string -> string -> option goerr;
  rt_stopContainer : list event -> string -> option goerr }.

(** The TxNodeService fields the handlers use, together with the history of
    events (newest first). *)
Record TxNodeService := mkTxNodeService {
  containers : list DockerContainer;
  scannerContainerID : string;
  jsonRpcContainerID : string;
  events : list event }.

Definition set_containers (cs : list DockerContainer) (t : TxNodeService) :=
  mkTxNodeService cs (scannerContainerID t) (jsonRpcContainerID t) (events t).

Definition add_event (ev : event) (t : TxNodeService) :=
  mkTxNodeService (containers t) (scannerContainerID t) (jsonRpcContainerID t)
    (ev :: events t).

(** The handlers run under [t.mu] for their whole body, so each is one
    state transformer. *)
Definition M (A : Type) := TxNodeService -> A * TxNodeService.

Definition ret {A} (a : A) : M A := fun t => (a, t).
Definition bind {A B} (m : M A) (k : A -> M B) : M B :=
  fun t => let (a, t') := m t in k a t'.
Definition get : M TxNodeService := fun t => (t, t).
Definition emit (ev : event) : M unit := fun t => (tt, add_event ev t).

Notation "x <- m ;; k" := (bind m (fun x => k))
  (at level 61, m at next level, right associativity).
Notation "m ;;; k" := (bind m (fun _ => k))
  (at level 61, right associativity).

Section Supervision.

(** config.AgentConfig's ContainerName() and GrpcPort() are deterministic
    functions of the agent ID. *)
Variable containerNameOfID : string -> string.
Variable grpcPortOfID : string -> string.
Variable rt : Runtime.

Definition ContainerName (a : AgentConfig) : string := containerNameOfID (AgentID a).
Definition GrpcPort (a : AgentConfig) : string := grpcPortOfID (AgentID a).

(** A runtime call: recorded in the history, answered by the runtime from
    the history before it. *)
Definition runtimeCall {A} (c : call) (answer : list event -> A) : M A :=
  fun t => (answer (events t), add_event (Call c) t).

(** Modelled from the spec: TxNodeService.ensureLocalImage (not under src/)
    "ensure its image is present locally (pulling if configured to do so)";
    one runtime call whose outcome is nil or an error. *)
Definition ensureLocalImage (name image : string) (pull : bool) : M (option goerr) :=
  runtimeCall (EnsureLocalImage name image pull)
    (fun h => rt_ensureLocalImage rt h name image pull).

Definition createPublicNetwork (name : string) : M (result string) :=
  runtimeCall (CreatePublicNetwork name) (fun h => rt_createPublicNetwork rt h name).

(** The runtime client returns the started container's record under the
    requested name and the ID the runtime assigned. *)
Definition startContainer (cfg : DockerContainerConfig) : M (result DockerContainer) :=
  runtimeCall (StartContainer cfg)
    (fun h => match rt_startContainer rt h cfg with
              | Ok id => Ok (mkDockerContainer (dc_Name cfg) id)
              | Err e => Err e
              end).

Definition attachNetwork (containerID networkID : string) : M (option goerr) :=
  runtimeCall (AttachNetwork containerID networkID)
    (fun h => rt_attachNetwork rt h containerID networkID).

Definition stopContainer (containerID : string) : M (option goerr) :=
  runtimeCall (StopContainer containerID) (fun h => rt_stopContainer rt h containerID).

Definition EnvJsonRpcHost := "JSON_RPC_HOST".
Definition EnvJsonRpcPort := "JSON_RPC_PORT".
Definition EnvAgentGrpcPort := "AGENT_GRPC_PORT".
Definition DockerJSONRPCProxyContainerName := "forta-json-rpc".

Definition agentContainerConfig (agent : AgentConfig) (nwID : string) :=
  mkDockerContainerConfig (ContainerName agent) (AgentImage agent) nwID []
    [(EnvJsonRpcHost, DockerJSONRPCProxyContainerName);
     (EnvJsonRpcPort, "8545");
     (EnvAgentGrpcPort, GrpcPort agent)].

(** The loop attaching the scanner and the JSON-RPC proxy. *)
Fixpoint attachAll (containerIDs : list string) (nwID : string) : M (option goerr) :=
  match containerIDs with
  | [] => ret None
  | containerID :: rest =>
      err <- attachNetwork containerID nwID ;;
      match err with
      | Some e =>
          if isErrAlreadyExistsInNetwork e then attachAll rest nwID
          else ret (Some e)
      | None => attachAll rest nwID
      end
  end.

Definition addContainerUnsafe (cs : list DockerContainer) : M unit :=
  fun t => (tt, set_containers (containers t ++ cs) t).

Definition startAgent (agent : AgentConfig) : M (option goerr) :=
  e <- ensureLocalImage ("agent " ++ AgentID agent) (AgentImage agent) true ;;
  match e with
  | Some e => ret (Some e)
  | None =>
    r <- createPublicNetwork (ContainerName agent) ;;
    match r with
    | Err e => ret (Some e)
    | Ok nwID =>
      c <- startContainer (agentContainerConfig agent nwID) ;;
      match c with
      | Err e => ret (Some e)
      | Ok agentContainer =>
        t <- get ;;
        err <- attachAll [scannerContainerID t; jsonRpcContainerID t] nwID ;;
        match err with
        | Some e => ret (Some e)
        | None => addContainerUnsafe [agentContainer] ;;; ret None
        end
      end
    end
  end.

Fixpoint getContainerUnsafe (name : string) (cs : list DockerContainer)
  : option DockerContainer :=
  match cs with
  | [] => None
  | c :: rest => if String.eqb (Name c) name then Some c else getContainerUnsafe name rest
  end.

(** The [for _, agent := range payload] loop of handleAgentRun. *)
Fixpoint runLoop (payload : list AgentConfig) : M unit :=
  match payload with
  | [] => ret tt
  | agent :: rest =>
    t <- get ;;
    match getContainerUnsafe (ContainerName agent) (containers t) with
    | Some _ =>
      emit (Log (LogAlreadyRunning (ContainerName agent))) ;;;
      emit (Publish SubjectAgentsStatusRunning [agent]) ;;;
      runLoop rest
    | None =>
      err <- startAgent agent ;;
      match err with
      | Some e => emit (Log (LogStartFailed e)) ;;; runLoop rest
      | None => emit (Publish SubjectAgentsStatusRunning [agent]) ;;; runLoop rest
      end
    end
  end.

Definition handleAgentRun (payload : list AgentConfig) : M (option goerr) :=
  emit (Log (LogHandleAgentRun (length payload))) ;;;
  runLoop payload ;;;
  ret None.

(** [stopped[id]] of the map[string]bool. *)
Definition isStopped (stopped : list string) (id : string) : bool :=
  existsb (String.eqb id) stopped.

(** The [for _, agentCfg := range payload] loop of handleAgentStop: the
    error that aborts it, or the IDs it stopped. *)
Fixpoint stopLoop (payload : list AgentConfig) (stopped : list string)
  : M (result (list string)) :=
  match payload with
  | [] => ret (Ok stopped)
  | agentCfg :: rest =>
    t <- get ;;
    match getContainerUnsafe (ContainerName agentCfg) (containers t) with
    | None => emit (Log (LogStopSkipped (ContainerName agentCfg))) ;;; stopLoop rest stopped
    | Some container =>
      err <- stopContainer (ID container) ;;
      match err with
      | Some e => ret (Err (ErrStopFailed (ID container) e))
      | None =>
        emit (Log (LogStopped (ContainerName agentCfg))) ;;;
        stopLoop rest (ID container :: stopped)
      end
    end
  end.

(** [t.containers = remainingContainers]: drop every record whose ID was
    stopped. *)
Definition removeStopped (stopped : list string) : M unit :=
  fun t => (tt, set_containers
                  (filter (fun c => negb (isStopped stopped (ID c))) (containers t)) t).

Definition handleAgentStop (payload : list AgentConfig) : M (option goerr) :=
  r <- stopLoop payload [] ;;
  match r with
  | Err e => ret (Some e)
  | Ok stopped =>
    removeStopped stopped ;;;
    (if Nat.ltb 0 (length payload)
     then emit (Publish SubjectAgentsStatusStopped payload) else ret tt) ;;;
    ret None
  end.

End Supervision.

(** An attach result that startAgent goes past: nil or the
    "already attached" sentinel. *)
Definition attachTolerated (r : option goerr) : bool :=
  match r with None => true | Some e => isErrAlreadyExistsInNetwork e end.

(** A runtime on which every step of startAgent succeeds. *)
Definition runtimeHealthy (rt : Runtime) : Prop :=
  (forall h name image pull, rt_ensureLocalImage rt h name image pull = None) /\
  (forall h name, exists nw, rt_createPublicNetwork rt h name = Ok nw) /\
  (forall h cfg, exists id, rt_startContainer rt h cfg = Ok id) /\
  (forall h containerID nw, attachTolerated (rt_attachNetwork rt h containerID nw) = true).

(** Whether the table has a record named [name]. *)
Definition hasContainer (name : string) (cs : list DockerContainer) : bool :=
  match getContainerUnsafe name cs with Some _ => true | None => false end.

(** Start-container calls for the container name [name] in a history. *)
Fixpoint countStartCalls (name : string) (evs : list event) : nat :=
  match evs with
  | [] => 0
  | Call (StartContainer cfg) :: rest =>
      (if String.eqb (dc_Name cfg) name then 1 else 0) + countStartCalls name rest
  | _ :: rest => countStartCalls name rest
  end.

(** "running" status publications for the descriptor [a] in a history. *)
Fixpoint countRunningPublications (a : AgentConfig) (evs : list event) : nat :=
  match evs with
  | [] => 0
  | Publish SubjectAgentsStatusRunning [b] :: rest =>
      (if AgentConfig_eqb b a then 1 else 0) + countRunningPublications a rest
  | _ :: rest => countRunningPublications a rest
  end.

End Containers.

Module Inspector.

Open Scope Z_scope.

(** Go's [uint64(x)] of an [int] and uint64 subtraction, wrapping mod 2^64. *)
Definition uint64_modulus : Z := 2 ^ 64.
Definition uint64_of_int (x : Z) : Z := x mod uint64_modulus.
Definition uint64_sub (a b : Z) : Z := (a - b) mod uint64_modulus.

(** A Go computation that may end in a run-time panic. *)
Inductive go {A : Type} :=
| Normal (a : A)
| Panic.
Arguments go : clear implicits.

(** uint64 [%]: division by zero panics. *)
Definition uint64_mod (a b : Z) : go Z :=
  if b =? 0 then Panic else Normal (a mod b).

(** Durations in nanoseconds. *)
Definition second : Z := 1000000000.
Definition minute : Z := 60 * second.
Definition blockEventWaitTimeout : Z := 10 * minute.
(** inspectBackoff.MaxElapsedTime *)
Definition maxElapsedTime : Z := 5 * minute.

(** Log lines of the scheduler. *)
Inductive logmsg :=
| LogTriggering (triggeredAtBlock inspectingAtBlock : Z)
| LogTriggered
| LogAlreadyBusy
| LogInspectionDone (results : string)
| LogInspectionErrors (e : goerr)
| LogFinallyFailed (e : goerr) (inspectingAtBlock : Z).

(** Publications on "inspection:done" and log lines. *)
Inductive event :=
| PublishInspectionDone (results : string)
| Log (m : logmsg).

(** The Inspector fields the claims use: the capacity-1 [inspectCh]
    (its buffer: [None] empty, [Some n] holding [n]), the watchdog clock,
    the cadence [inspectEvery] (a Go [int]), the health error tracker
    [lastErr], and the history of events (newest first). *)
Record Inspector := mkInspector {
  inspectCh : option Z;
  latestBlockEventTime : Z;
  inspectEvery : Z;
  lastErr : option goerr;
  ins_events : list event }.

Definition set_inspectCh (ch : option Z) (ins : Inspector) :=
  mkInspector ch (latestBlockEventTime ins) (inspectEvery ins) (lastErr ins) (ins_events ins).

Definition set_latestBlockEventTime (now : Z) (ins : Inspector) :=
  mkInspector (inspectCh ins) now (inspectEvery ins) (lastErr ins) (ins_events ins).

Definition add_event (ev : event) (ins : Inspector) :=
  mkInspector (inspectCh ins) (latestBlockEventTime ins) (inspectEvery ins) (lastErr ins)
    (ev :: ins_events ins).

(** [select { case ins.inspectCh <- v: ... default: ... }]. *)
Definition trySend (v : Z) (ins : Inspector) : Inspector :=
  match inspectCh ins with
  | None => add_event (Log LogTriggered) (set_inspectCh (Some v) ins)
  | Some _ => add_event (Log LogAlreadyBusy) ins
  end.

Definition handleScannerBlock (now latestBlockInput : Z) (ins : Inspector)
  : go (option goerr * Inspector) :=
  let ins := set_latestBlockEventTime now ins in
  if 0 <? latestBlockInput then
    match uint64_mod latestBlockInput (uint64_of_int (inspectEvery ins)) with
    | Panic => Panic
    | Normal m =>
      if m =? 0 then
        let inspectionBlockNum :=
          uint64_sub latestBlockInput (uint64_of_int (inspectEvery ins)) in
        let ins := add_event (Log (LogTriggering latestBlockInput inspectionBlockNum)) ins in
        Normal (None, trySend inspectionBlockNum ins)
      else Normal (None, ins)
    end
  else Normal (None, ins).

(** What the RPC endpoint does during a watchdog tick. *)
Inductive rpc_outcome :=
| DialFailed
| BlockNumberFailed
| BlockNumber (n : Z).

(** One watchdog tick: it goes on to the next tick, stays blocked on a
    send of [v] to the full channel, or panics. *)
Inductive tick_result :=
| TickContinue (ins : Inspector)
| TickBlocked (v : Z) (ins : Inspector)
| TickPanic.

(** [ins.inspectCh <- v]: a blocking send. *)
Definition sendBlocking (v : Z) (ins : Inspector) : tick_result :=
  match inspectCh ins with
  | None => TickContinue (set_inspectCh (Some v) ins)
  | Some _ => TickBlocked v ins
  end.

Definition inspectionTimeoutTick (now : Z) (rpc : rpc_outcome) (ins : Inspector) : tick_result :=
  if latestBlockEventTime ins + blockEventWaitTimeout <? now then
    match rpc with
    | DialFailed => sendBlocking 0 ins
    | BlockNumberFailed => sendBlocking 0 ins
    | BlockNumber blockNum =>
      match uint64_mod blockNum (uint64_of_int (inspectEvery ins)) with
      | Panic => TickPanic
      | Normal m => if m =? 0 then sendBlocking blockNum ins else TickContinue ins
      end
    end
  else TickContinue ins.

(** One attempt of the external inspection routine: its results, its error,
    and the backoff's elapsed time when NextBackOff is consulted after it. *)
Record attempt := mkAttempt {
  at_results : string;
  at_err : option goerr;
  at_elapsed : Z }.

Definition runInspection (a : attempt) (ins : Inspector) : option goerr * Inspector :=
  let ins := add_event (PublishInspectionDone (at_results a)) ins in
  let ins := add_event (Log (LogInspectionDone (at_results a))) ins in
  match at_err a with
  | Some e => (Some e, add_event (Log (LogInspectionErrors e)) ins)
  | None => (None, ins)
  end.

(** backoff.Retry: finished with nil or the last error, or still retrying
    when the scripted attempts run out. *)
Inductive retry_outcome :=
| RetryDone (err : option goerr)
| RetryPending.

Fixpoint retryInspection (script : list attempt) (ins : Inspector)
  : retry_outcome * Inspector :=
  match script with
  | [] => (RetryPending, ins)
  | a :: rest =>
    let (err, ins) := runInspection a ins in
    match err with
    | None => (RetryDone None, ins)
    | Some e =>
      if maxElapsedTime <? at_elapsed a then (RetryDone (Some e), ins)
      else retryInspection rest ins
    end
  end.

(** One iteration of the worker goroutine of Start: receive a block number
    ([None] while the channel is empty: the worker waits), run the
    inspection under retry, log a final failure. *)
Definition workerStep (script : list attempt) (ins : Inspector)
  : option (retry_outcome * Inspector) :=
  match inspectCh ins with
  | None => None
  | Some blockNum =>
    let ins := set_inspectCh None ins in
    match retryInspection script ins with
    | (RetryDone (Some e), ins) =>
        Some (RetryDone (Some e), add_event (Log (LogFinallyFailed e blockNum)) ins)
    | (o, ins) => Some (o, ins)
    end
  end.

(** Health(): the "last-error" report of the error tracker. *)
Definition Health (ins : Inspector) : list (string * option goerr) :=
  [("last-error", lastErr ins)].

(** The publications on "inspection:done" in a history. *)
Fixpoint publications (evs : list event) : list string :=
  match evs with
  | [] => []
  | PublishInspectionDone r :: rest => r :: publications rest
  | _ :: rest => publications rest
  end.

End Inspector.

(** * The mock agent server at the end of supervision.go (package main) *)
Module AgentServer.

(** protocol.ResponseStatus *)
Inductive ResponseStatus := ResponseStatus_UNKNOWN | ResponseStatus_ERROR | ResponseStatus_SUCCESS.

(** protocol.Finding_Severity and protocol.Finding_FindingType *)
Inductive Finding_Severity :=
| Finding_UNKNOWN | Finding_INFO | Finding_LOW | Finding_MEDIUM | Finding_HIGH | Finding_CRITICAL.
Inductive Finding_FindingType :=
| Finding_UNKNOWN_TYPE | Finding_EXPLOIT | Finding_SUSPICIOUS | Finding_DEGRADED | Finding_INFORMATION.

(** protocol.Finding, with the fields EvaluateAlert sets ([Indicators] is
    nil and left out). *)
Record Finding := mkFinding {
  f_Protocol : string;
  f_Severity : Finding_Severity;
  f_Metadata : list (string * string);
  f_Type : Finding_FindingType;
  f_AlertId : string;
  f_Name : string;
  f_Description : string;
  f_EverestId : string;
  f_Private : bool;
  f_Addresses : list string }.

(** The parts of protocol.EvaluateAlertRequest that EvaluateAlert reads.
    Message fields are pointers, [None] standing for nil; a nil map reads
    like an empty one. *)
Record Alert := mkAlert { al_Metadata : list (string * string) }.
Record Network := mkNetwork { nw_ChainId : string }.
Record AlertEvent := mkAlertEvent { ev_Alert : option Alert; ev_Network : option Network }.
Record EvaluateAlertRequest := mkEvaluateAlertRequest { req_Event : option AlertEvent }.

Record EvaluateAlertResponse := mkEvaluateAlertResponse {
  resp_Status : ResponseStatus;
  resp_Findings : list Finding }.

(** [m[k]] on a map[string]string: the value under [k], or "" when [k] is
    absent. *)
Fixpoint mapIndex (m : list (string * string)) (k : string) : string :=
  match m with
  | [] => ""
  | (k', v) :: rest => if String.eqb k' k then v else mapIndex rest k
  end.

Definition supportingTraceFinding : Finding :=
  mkFinding "1" Finding_CRITICAL [] Finding_INFORMATION "mock-alert-id" "supporting trace"
    "this is a mainnet node with trace support" "" false [].

(** agentServer.EvaluateAlert.  [trace] and [isMainnet] are evaluated in
    turn before the test, each dereferencing the request's pointers, so a
    nil [Event], [Event.Alert] or [Event.Network] panics.  The log line is
    left out. *)
Definition EvaluateAlert (alertRequest : EvaluateAlertRequest)
  : Inspector.go EvaluateAlertResponse :=
  match req_Event alertRequest with
  | None => Inspector.Panic
  | Some ev =>
    match ev_Alert ev with
    | None => Inspector.Panic
    | Some al =>
      let trace := String.eqb (mapIndex (al_Metadata al) "containerTraceSupported") "1" in
      match ev_Network ev with
      | None => Inspector.Panic
      | Some nw =>
        let isMainnet := String.eqb (nw_ChainId nw) "1" in
        Inspector.Normal
          (mkEvaluateAlertResponse ResponseStatus_SUCCESS
             (if trace && isMainnet then [supportingTraceFinding] else []))
      end
    end
  end.

End AgentServer.

(** * Concrete configurations used to exercise the handlers *)
Module Scenarios.

Import Containers.

Definition agentName (id : string) : string := "forta-agent-" ++ id.
Definition agentPort (id : string) : string := "50051".

Definition agentA := mkAgentConfig "a" "image-a".
Definition agentB := mkAgentConfig "b" "image-b".
Definition recA := mkDockerContainer (agentName "a") "id-a".
Definition recB := mkDockerContainer (agentName "b") "id-b".

Definition service (cs : list DockerContainer) : TxNodeService :=
  mkTxNodeService cs "scanner-id" "json-rpc-id" [].

Definition isStopCall (ev : event) : bool :=
  match ev with Call (StopContainer _) => true | _ => false end.

(** A runtime whose attach and stop calls answer as given, every other call
    succeeding. *)
Definition runtimeWith (attach : option goerr) (stop : list event -> option goerr) :=
  mkRuntime (fun _ _ _ _ => None)
            (fun _ _ => Ok "agent-network")
            (fun _ _ => Ok "agent-container-id")
            (fun _ _ _ => attach)
            (fun h _ => stop h).

Definition okRuntime := runtimeWith None (fun _ => None).
Definition alreadyAttachedRuntime := runtimeWith (Some ErrAlreadyExistsInNetwork) (fun _ => None).
Definition attachFailsRuntime := runtimeWith (Some (ErrMsg "network unreachable")) (fun _ => None).
Definition stopFailsRuntime := runtimeWith None (fun _ => Some (ErrMsg "stop failed")).
(** The first stop call succeeds, every later one fails. *)
Definition secondStopFailsRuntime :=
  runtimeWith None (fun h => if existsb isStopCall h then Some (ErrMsg "stop failed") else None).

End Scenarios.

(** * Properties of the Inspection Scheduler *)
Module InspectorFacts.

Import Inspector.
Open Scope Z_scope.
Open Scope list_scope.

Lemma uint64_of_int_pos (c : Z) : 0 <= c < 2 ^ 63 -> uint64_of_int c = c.
Proof.
  intros Hc. unfold uint64_of_int, uint64_modulus.
  apply Z.mod_small. assert (2 ^ 63 < 2 ^ 64) by reflexivity. lia.
Qed.

(** A positive multiple of a positive cadence is at least the cadence. *)
Lemma multiple_ge (b c : Z) : 0 < c -> 0 < b -> b mod c = 0 -> c <= b.
Proof.
  intros Hc Hb Hm.
  pose proof (Z.div_mod b c ltac:(lia)) as Hd. rewrite Hm in Hd.
  assert (0 < b / c) by nia. nia.
Qed.

Example handleScannerBlock_100 :
  exists ins', handleScannerBlock 7 100 (mkInspector None 0 10 None []) = Normal (None, ins')
    /\ inspectCh ins' = Some 90.
Proof. eexists. split; reflexivity. Qed.

Example handleScannerBlock_95 :
  exists ins', handleScannerBlock 7 95 (mkInspector None 0 10 None []) = Normal (None, ins')
    /\ inspectCh ins' = None.
Proof. eexists. split; reflexivity. Qed.

(** C7: with a cadence [c > 0], a block-progress signal [B] sets the
    watchdog clock to now; when [B > 0] and [c] divides [B] it makes a
    non-blocking send of [B - c] into the slot (stored when the slot is
    empty, dropped when full); otherwise the slot is unchanged. *)
Theorem C7_handleScannerBlock_enqueue (now B : Z) (ins : Inspector)
  (Hc : 0 < inspectEvery ins < 2 ^ 63) (HB : 0 <= B < 2 ^ 64) :
  exists ins',
    handleScannerBlock now B ins = Normal (None, ins') /\
    latestBlockEventTime ins' = now /\
    inspectCh ins' =
      (if (0 <? B) && (B mod inspectEvery ins =? 0)
       then match inspectCh ins with
            | None => Some (B - inspectEvery ins)
            | Some v => Some v
            end
       else inspectCh ins).
Proof.
  unfold handleScannerBlock. cbn [inspectEvery set_latestBlockEventTime].
  rewrite (uint64_of_int_pos (inspectEvery ins) ltac:(lia)).
  unfold uint64_mod. replace (inspectEvery ins =? 0) with false by lia.
  destruct (0 <? B) eqn:Hpos; cbn [andb].
  - destruct (B mod inspectEvery ins =? 0) eqn:Hm.
    + apply Z.ltb_lt in Hpos. apply Z.eqb_eq in Hm.
      pose proof (multiple_ge B (inspectEvery ins) ltac:(lia) Hpos Hm).
      assert (Hs : uint64_sub B (inspectEvery ins) = B - inspectEvery ins).
      { unfold uint64_sub, uint64_modulus. apply Z.mod_small. lia. }
      rewrite Hs. unfold trySend. destruct ins as [[v|] t c le evs]; cbn;
      eexists; repeat split; reflexivity.
    + eexists; repeat split; reflexivity.
  - eexists; repeat split; reflexivity.
Qed.

Lemma C7_handleScannerBlock_enqueue_witness :
  let ins := mkInspector None 0 10 None [] in
  (0 < inspectEvery ins < 2 ^ 63 /\ 0 <= 100 < 2 ^ 64) /\
  exists ins', handleScannerBlock 7 100 ins = Normal (None, ins') /\
    latestBlockEventTime ins' = 7 /\ inspectCh ins' = Some 90.
Proof.
  cbv zeta. split; [split; cbn; lia|].
  destruct (C7_handleScannerBlock_enqueue 7 100 (mkInspector None 0 10 None [])
              ltac:(cbn; lia) ltac:(lia)) as [ins' [H1 [H2 H3]]].
  exists ins'. split; [exact H1|]. split; [exact H2|]. rewrite H3. reflexivity.
Defined.

(** C10: under a positive cadence (a Go [int], so below 2^63) neither the
    block-progress handler nor a watchdog tick reaches the division by zero
    of [%]; with cadence 0 the handler panics on every positive block. *)
Theorem C10_modulo_needs_cadence (ins : Inspector) (now B : Z) (rpc : rpc_outcome) :
  (0 < inspectEvery ins < 2 ^ 63 ->
     handleScannerBlock now B ins <> Panic /\ inspectionTimeoutTick now rpc ins <> TickPanic) /\
  (inspectEvery ins = 0 -> 0 < B -> handleScannerBlock now B ins = Panic).
Proof.
  split.
  - intros Hc. unfold handleScannerBlock, inspectionTimeoutTick, uint64_mod.
    cbn [inspectEvery set_latestBlockEventTime].
    rewrite (uint64_of_int_pos (inspectEvery ins) ltac:(lia)).
    replace (inspectEvery ins =? 0) with false by lia.
    split.
    + destruct (0 <? B); [destruct (B mod inspectEvery ins =? 0)|]; discriminate.
    + destruct (latestBlockEventTime ins + blockEventWaitTimeout <? now);
        [|discriminate].
      destruct rpc as [| |n]; unfold sendBlocking;
        try (destruct (inspectCh ins); discriminate).
      destruct (n mod inspectEvery ins =? 0); [destruct (inspectCh ins)|]; discriminate.
  - intros H0 HB. unfold handleScannerBlock, uint64_mod.
    cbn [inspectEvery set_latestBlockEventTime]. rewrite H0.
    replace (0 <? B) with true by lia. reflexivity.
Qed.

(** C2: the watchdog's push onto a full slot blocks (after a dial failure,
    a block-read failure, or a block that is a multiple of the cadence),
    whereas the block-progress handler's push onto the same full slot is
    dropped as "already busy". *)
Theorem C2_watchdog_send_blocks_on_full_slot :
  let ins := mkInspector (Some 90) 0 10 None [] in
  let now := blockEventWaitTimeout + second in
  inspectionTimeoutTick now DialFailed ins = TickBlocked 0 ins /\
  inspectionTimeoutTick now BlockNumberFailed ins = TickBlocked 0 ins /\
  inspectionTimeoutTick now (BlockNumber 120) ins = TickBlocked 120 ins /\
  (exists ins', handleScannerBlock now 120 ins = Normal (None, ins') /\
                inspectCh ins' = Some 90 /\ hd_error (ins_events ins') = Some (Log LogAlreadyBusy)).
Proof. cbv zeta. repeat split; try reflexivity. eexists. split; [reflexivity|split; reflexivity]. Qed.

Lemma runInspection_events (a : attempt) (ins : Inspector) :
  exists new, ins_events (snd (runInspection a ins)) = new ++ ins_events ins /\
    publications new = [at_results a] /\
    fst (runInspection a ins) = at_err a /\
    inspectCh (snd (runInspection a ins)) = inspectCh ins /\
    lastErr (snd (runInspection a ins)) = lastErr ins.
Proof.
  unfold runInspection. destruct (at_err a) as [e|]; cbn.
  - exists [Log (LogInspectionErrors e); Log (LogInspectionDone (at_results a));
            PublishInspectionDone (at_results a)]. repeat split; reflexivity.
  - exists [Log (LogInspectionDone (at_results a)); PublishInspectionDone (at_results a)].
    repeat split; reflexivity.
Qed.

Lemma publications_app (l1 l2 : list event) :
  publications (l1 ++ l2) = publications l1 ++ publications l2.
Proof. induction l1 as [|[r|m] l1 IH]; cbn; [reflexivity| rewrite IH |]; auto. Qed.

(** Failing attempts within the ceiling each publish their results and the
    retry goes on. *)
Lemma retry_failed_prefix (failed rest : list attempt) (ins : Inspector) :
  Forall (fun a => exists e, at_err a = Some e /\ at_elapsed a <= maxElapsedTime) failed ->
  exists ins1,
    retryInspection (failed ++ rest) ins = retryInspection rest ins1 /\
    (exists new, ins_events ins1 = new ++ ins_events ins /\
       publications new = rev (map at_results failed)) /\
    inspectCh ins1 = inspectCh ins /\ lastErr ins1 = lastErr ins.
Proof.
  revert ins. induction failed as [|a failed IH]; intros ins Hf.
  - exists ins. repeat split; auto. exists []. auto.
  - inversion Hf as [|? ? [e [He Hel]] Hf']; subst.
    cbn [app retryInspection].
    destruct (runInspection_events a ins) as [new1 [Hev1 [Hp1 [Herr1 [Hch1 Hle1]]]]].
    destruct (runInspection a ins) as [err ins0] eqn:Hr. cbn in Herr1, Hch1, Hle1, Hev1. subst err.
    rewrite He. replace (maxElapsedTime <? at_elapsed a) with false by lia.
    destruct (IH ins0 Hf') as [ins1 [Heq [[new2 [Hev2 Hp2]] [Hch2 Hle2]]]].
    exists ins1. split; [exact Heq|]. split; [|split; congruence].
    exists (new2 ++ new1). rewrite Hev2, Hev1, app_assoc. split; [reflexivity|].
    rewrite publications_app, Hp2, Hp1. reflexivity.
Qed.

(** C1 as the code has it: every attempt publishes its results on
    "inspection:done".  For a request drained from the slot whose first
    attempts fail within the 5-minute ceiling, the worker publishes one
    message per attempt, newest first: when the last attempt fails past the
    ceiling the retry gives up with its error, when it succeeds the retry
    ends there, its result the last publication. *)
Theorem C1_publication_per_attempt (ins : Inspector) (blockNum : Z)
  (failed : list attempt) (last : attempt)
  (Hch : inspectCh ins = Some blockNum)
  (Hfail : Forall (fun a => exists e, at_err a = Some e /\ at_elapsed a <= maxElapsedTime) failed) :
  (forall e, at_err last = Some e -> maxElapsedTime < at_elapsed last ->
     exists ins', workerStep (failed ++ [last]) ins = Some (RetryDone (Some e), ins') /\
       exists new, ins_events ins' = new ++ ins_events ins /\
         publications new = at_results last :: rev (map at_results failed)) /\
  (at_err last = None ->
     exists ins', workerStep (failed ++ [last]) ins = Some (RetryDone None, ins') /\
       exists new, ins_events ins' = new ++ ins_events ins /\
         publications new = at_results last :: rev (map at_results failed)).
Proof.
  unfold workerStep. rewrite Hch.
  destruct (retry_failed_prefix failed [last] (set_inspectCh None ins) Hfail)
    as [ins1 [Heq [[new1 [Hev1 Hp1]] _]]].
  rewrite Heq. cbn [retryInspection].
  destruct (runInspection_events last ins1) as [new2 [Hev2 [Hp2 [Herr2 _]]]].
  destruct (runInspection last ins1) as [err ins2] eqn:Hr. cbn in Hev2, Hp2, Herr2. subst err.
  split.
  - intros e He Hel. rewrite He. replace (maxElapsedTime <? at_elapsed last) with true by lia.
    eexists. split; [reflexivity|].
    exists (Log (LogFinallyFailed e blockNum) :: new2 ++ new1). cbn.
    rewrite Hev2, Hev1, app_assoc. split; [reflexivity|].
    rewrite publications_app, Hp2, Hp1. reflexivity.
  - intros He. rewrite He. eexists. split; [reflexivity|].
    exists (new2 ++ new1). rewrite Hev2, Hev1, app_assoc. split; [reflexivity|].
    rewrite publications_app, Hp2, Hp1. reflexivity.
Qed.

Lemma C1_publication_per_attempt_witness :
  let ins := mkInspector (Some 90) 0 10 None [] in
  let e := ErrMsg "scan api unreachable" in
  let failed := [mkAttempt "r1" (Some e) (10 * second); mkAttempt "r2" (Some e) (40 * second)] in
  inspectCh ins = Some 90 /\
  Forall (fun a => exists e, at_err a = Some e /\ at_elapsed a <= maxElapsedTime) failed /\
  ((forall e', at_err (mkAttempt "r3" None (80 * second)) = Some e' ->
     maxElapsedTime < at_elapsed (mkAttempt "r3" None (80 * second)) ->
     exists ins', workerStep (failed ++ [mkAttempt "r3" None (80 * second)]) ins
                    = Some (RetryDone (Some e'), ins') /\
       exists new, ins_events ins' = new ++ ins_events ins /\
         publications new = "r3" :: rev (map at_results failed)) /\
  (at_err (mkAttempt "r3" None (80 * second)) = None ->
     exists ins', workerStep (failed ++ [mkAttempt "r3" None (80 * second)]) ins
                    = Some (RetryDone None, ins') /\
       exists new, ins_events ins' = new ++ ins_events ins /\
         publications new = "r3" :: rev (map at_results failed))).
Proof.
  cbv zeta.
  assert (Hf : Forall (fun a => exists e, at_err a = Some e /\ at_elapsed a <= maxElapsedTime)
     [mkAttempt "r1" (Some (ErrMsg "scan api unreachable")) (10 * second);
      mkAttempt "r2" (Some (ErrMsg "scan api unreachable")) (40 * second)]).
  { repeat constructor; eexists; split; try reflexivity; vm_compute; discriminate. }
  split; [reflexivity|]. split; [exact Hf|].
  exact (C1_publication_per_attempt (mkInspector (Some 90) 0 10 None []) 90 _
           (mkAttempt "r3" None (80 * second)) eq_refl Hf).
Defined.

(** The claim fails on the code: a request whose two attempts both fail
    (the second past the ceiling) gives two publications, not zero; two
    failures then a success give three publications, not one. *)
Lemma C1_counterexample :
  let ins := mkInspector (Some 90) 0 10 None [] in
  let e := ErrMsg "scan api unreachable" in
  (exists ins', workerStep [mkAttempt "r1" (Some e) (10 * second);
                            mkAttempt "r2" (Some e) (6 * minute)] ins
                = Some (RetryDone (Some e), ins') /\
                publications (ins_events ins') = ["r2"; "r1"]) /\
  (exists ins', workerStep [mkAttempt "r1" (Some e) (10 * second);
                            mkAttempt "r2" (Some e) (40 * second);
                            mkAttempt "r3" None (80 * second)] ins
                = Some (RetryDone None, ins') /\
                publications (ins_events ins') = ["r3"; "r2"; "r1"]).
Proof. cbv zeta. split; eexists; split; reflexivity. Qed.

(** No path of the worker writes the health error tracker. *)
Lemma workerStep_lastErr (script : list attempt) (ins : Inspector) o ins' :
  workerStep script ins = Some (o, ins') -> lastErr ins' = lastErr ins.
Proof.
  unfold workerStep. destruct (inspectCh ins) as [b|]; [|discriminate].
  assert (Hr : forall sc i, lastErr (snd (retryInspection sc i)) = lastErr i).
  { induction sc as [|a sc IH]; intros i; [reflexivity|]. cbn [retryInspection].
    destruct (runInspection_events a i) as [_ [_ [_ [Herr [_ Hle]]]]].
    destruct (runInspection a i) as [err i0]. cbn in Herr, Hle. subst err.
    destruct (at_err a); [destruct (maxElapsedTime <? at_elapsed a)|]; cbn;
      rewrite ?IH; assumption. }
  specialize (Hr script (set_inspectCh None ins)).
  destruct (retryInspection script (set_inspectCh None ins)) as [[[e|]|] i1];
    intros H; inversion H; subst; cbn in *; exact Hr.
Qed.

(** C3: after the retry of a request is exhausted, the worker only logs the
    final failure; Health() still reports the tracker's earlier value (here:
    no error) in "last-error". *)
Theorem C3_exhaustion_not_in_health :
  let e := ErrMsg "inspection failed" in
  let ins := mkInspector (Some 90) 0 10 None [] in
  exists ins',
    workerStep [mkAttempt "r1" (Some e) (10 * second); mkAttempt "r2" (Some e) (6 * minute)] ins
      = Some (RetryDone (Some e), ins') /\
    hd_error (ins_events ins') = Some (Log (LogFinallyFailed e 90)) /\
    inspectCh ins' = None /\
    Health ins' = [("last-error", None)].
Proof. cbv zeta. eexists. repeat split; reflexivity. Qed.

End InspectorFacts.

(** * Properties of the Fleet Supervisor *)
Module ContainersFacts.

Import Containers Scenarios.
Open Scope list_scope.

Lemma getContainerUnsafe_some (n : string) (cs : list DockerContainer) (c : DockerContainer) :
  getContainerUnsafe n cs = Some c -> In c cs /\ Name c = n.
Proof.
  induction cs as [|c' cs IH]; cbn; [discriminate|].
  destruct (String.eqb (Name c') n) eqn:E.
  - intros H; inversion H; subst. apply String.eqb_eq in E. auto.
  - intros H. destruct (IH H). auto.
Qed.

Lemma getContainerUnsafe_none (n : string) (cs : list DockerContainer) :
  getContainerUnsafe n cs = None -> forall c, In c cs -> Name c <> n.
Proof.
  induction cs as [|c' cs IH]; cbn; [tauto|].
  destruct (String.eqb (Name c') n) eqn:E; [discriminate|].
  intros H c [<-|Hc]; [apply String.eqb_neq; exact E| exact (IH H c Hc)].
Qed.

Section StopFacts.

Variable nm : string -> string.
Variable rt : Runtime.

Lemma stopLoop_cons_absent (b : AgentConfig) rest acc t :
  getContainerUnsafe (ContainerName nm b) (containers t) = None ->
  stopLoop nm rt (b :: rest) acc t =
  stopLoop nm rt rest acc (add_event (Log (LogStopSkipped (ContainerName nm b))) t).
Proof. intros H. cbn. rewrite H. reflexivity. Qed.

Lemma stopLoop_cons_present (b : AgentConfig) rest acc t c :
  getContainerUnsafe (ContainerName nm b) (containers t) = Some c ->
  stopLoop nm rt (b :: rest) acc t =
  match rt_stopContainer rt (events t) (ID c) with
  | Some e => (Err (ErrStopFailed (ID c) e), add_event (Call (StopContainer (ID c))) t)
  | None => stopLoop nm rt rest (ID c :: acc)
              (add_event (Log (LogStopped (ContainerName nm b)))
                 (add_event (Call (StopContainer (ID c))) t))
  end.
Proof.
  intros H. cbn. rewrite H. unfold bind, stopContainer, runtimeCall. cbn.
  destruct (rt_stopContainer rt (events t) (ID c)); reflexivity.
Qed.

(** What the stop loop does: it never touches the table, publishes nothing,
    stops only containers found for descriptors of the payload, and when it
    runs to the end it has logged a skip for every absent descriptor. *)
Lemma stopLoop_spec (p : list AgentConfig) acc t :
  let (r, t') := stopLoop nm rt p acc t in
  containers t' = containers t /\
  scannerContainerID t' = scannerContainerID t /\
  jsonRpcContainerID t' = jsonRpcContainerID t /\
  exists new, events t' = new ++ events t /\
    (forall q s, ~ In (Publish s q) new) /\
    (forall cid, In (Call (StopContainer cid)) new ->
       exists c b, In b p /\ getContainerUnsafe (ContainerName nm b) (containers t) = Some c /\
                   ID c = cid) /\
    (forall stopped, r = Ok stopped ->
       forall b, In b p -> getContainerUnsafe (ContainerName nm b) (containers t) = None ->
       In (Log (LogStopSkipped (ContainerName nm b))) new).
Proof.
  revert acc t. induction p as [|b rest IH]; intros acc t.
  - cbn. repeat split; auto. exists []. repeat split; cbn; tauto.
  - destruct (getContainerUnsafe (ContainerName nm b) (containers t)) as [c|] eqn:Hg.
    + rewrite (stopLoop_cons_present b rest acc t c Hg).
      destruct (rt_stopContainer rt (events t) (ID c)) as [e|] eqn:Hs.
      * cbn. repeat split; auto. exists [Call (StopContainer (ID c))].
        split; [reflexivity|]. split; [|split].
        -- intros q s [H|[]]; discriminate.
        -- intros cid [H|[]]. inversion H; subst. exists c, b. cbn; auto.
        -- intros stopped H; discriminate.
      * specialize (IH (ID c :: acc) (add_event (Log (LogStopped (ContainerName nm b)))
                                   (add_event (Call (StopContainer (ID c))) t))).
        destruct (stopLoop nm rt rest _ _) as [r t'].
        destruct IH as [Hc [Hsc [Hj [new [Hev [Hpub [Hcall Hskip]]]]]]].
        cbn in Hc, Hsc, Hj, Hev, Hcall, Hskip.
        repeat split; auto.
        exists (new ++ [Log (LogStopped (ContainerName nm b)); Call (StopContainer (ID c))]).
        rewrite Hev, <- app_assoc. split; [reflexivity|]. split; [|split].
        -- intros q s Hin. apply in_app_or in Hin. destruct Hin as [Hin|[H|[H|[]]]];
             [exact (Hpub q s Hin)|discriminate|discriminate].
        -- intros cid Hin. apply in_app_or in Hin. destruct Hin as [Hin|[H|[H|[]]]].
           ++ destruct (Hcall cid Hin) as [c' [b' [Hb' [Hg' Hid]]]].
              exists c', b'. cbn. auto.
           ++ discriminate.
           ++ inversion H; subst. exists c, b. cbn. auto.
        -- intros stopped Hr b' [<-|Hb'] Hn; [congruence|].
           apply in_or_app. left. exact (Hskip stopped Hr b' Hb' Hn).
    + rewrite (stopLoop_cons_absent b rest acc t Hg).
      specialize (IH acc (add_event (Log (LogStopSkipped (ContainerName nm b))) t)).
      destruct (stopLoop nm rt rest _ _) as [r t'].
      destruct IH as [Hc [Hsc [Hj [new [Hev [Hpub [Hcall Hskip]]]]]]].
      cbn in Hc, Hsc, Hj, Hev, Hcall, Hskip.
      repeat split; auto.
      exists (new ++ [Log (LogStopSkipped (ContainerName nm b))]).
      rewrite Hev, <- app_assoc. split; [reflexivity|]. split; [|split].
      * intros q s Hin. apply in_app_or in Hin. destruct Hin as [Hin|[H|[]]];
          [exact (Hpub q s Hin)|discriminate].
      * intros cid Hin. apply in_app_or in Hin. destruct Hin as [Hin|[H|[]]]; [|discriminate].
        destruct (Hcall cid Hin) as [c' [b' [Hb' [Hg' Hid]]]].
        exists c', b'. cbn. auto.
      * intros stopped Hr b' [<-|Hb'] Hn; apply in_or_app; [right; left; reflexivity|].
        left. exact (Hskip stopped Hr b' Hb' Hn).
Qed.

(** The stop loop over [pre ++ rest] runs [pre], then, unless [pre] failed,
    [rest] with the IDs stopped so far. *)
Lemma stopLoop_app (pre rest : list AgentConfig) acc t :
  stopLoop nm rt (pre ++ rest) acc t =
  match stopLoop nm rt pre acc t with
  | (Err e, t1) => (Err e, t1)
  | (Ok stopped, t1) => stopLoop nm rt rest stopped t1
  end.
Proof.
  revert acc t. induction pre as [|b pre IH]; intros acc t; [reflexivity|].
  cbn [app].
  destruct (getContainerUnsafe (ContainerName nm b) (containers t)) as [c|] eqn:Hg.
  - rewrite (stopLoop_cons_present b (pre ++ rest) acc t c Hg),
      (stopLoop_cons_present b pre acc t c Hg).
    destruct (rt_stopContainer rt (events t) (ID c)); [reflexivity|apply IH].
  - rewrite (stopLoop_cons_absent b (pre ++ rest) acc t Hg),
      (stopLoop_cons_absent b pre acc t Hg).
    apply IH.
Qed.

(** A descriptor without a record, reached by the loop (no stop before it
    failed), is logged as skipped. *)
Lemma stopLoop_reaches_absent (pre post : list AgentConfig) (a : AgentConfig) t :
  getContainerUnsafe (ContainerName nm a) (containers t) = None ->
  (exists s, fst (stopLoop nm rt pre [] t) = Ok s) ->
  exists new, events (snd (stopLoop nm rt (pre ++ a :: post) [] t)) = new ++ events t /\
    In (Log (LogStopSkipped (ContainerName nm a))) new.
Proof.
  intros Habs [s Hs]. rewrite stopLoop_app.
  pose proof (stopLoop_spec pre [] t) as H1.
  destruct (stopLoop nm rt pre [] t) as [r1 t1]. cbn in Hs. subst r1.
  destruct H1 as [Hc1 [_ [_ [new1 [Hev1 _]]]]].
  assert (Habs1 : getContainerUnsafe (ContainerName nm a) (containers t1) = None)
    by (rewrite Hc1; exact Habs).
  rewrite (stopLoop_cons_absent a post s t1 Habs1).
  pose proof (stopLoop_spec post s (add_event (Log (LogStopSkipped (ContainerName nm a))) t1))
    as H2.
  destruct (stopLoop nm rt post s _) as [r2 t2].
  destruct H2 as [_ [_ [_ [new2 [Hev2 _]]]]]. cbn [events add_event] in Hev2.
  exists (new2 ++ Log (LogStopSkipped (ContainerName nm a)) :: new1). cbn [snd].
  rewrite Hev2, Hev1, <- app_assoc. split; [reflexivity|].
  apply in_or_app. right. left. reflexivity.
Qed.

End StopFacts.

Lemma handleAgentStop_eq (nm : string -> string) (rt : Runtime) p t :
  handleAgentStop nm rt p t =
  match stopLoop nm rt p [] t with
  | (Err e, t1) => (Some e, t1)
  | (Ok stopped, t1) =>
    let t2 := set_containers
                (filter (fun c => negb (isStopped stopped (ID c))) (containers t1)) t1 in
    (None, if Nat.ltb 0 (length p)
           then add_event (Publish SubjectAgentsStatusStopped p) t2 else t2)
  end.
Proof.
  unfold handleAgentStop, bind. destruct (stopLoop nm rt p [] t) as [[stopped|e] t1]; [|reflexivity].
  unfold removeStopped, ret, emit. destruct (Nat.ltb 0 (length p)); reflexivity.
Qed.

(** C9: whenever handleAgentStop returns an error, the Fleet Table is
    exactly the one it started from: records are only removed by the single
    update after the whole loop has succeeded. *)
Theorem C9_stop_error_keeps_table (nm : string -> string) (rt : Runtime)
  (p : list AgentConfig) (t t' : TxNodeService) (e : goerr)
  (H : handleAgentStop nm rt p t = (Some e, t')) :
  containers t' = containers t.
Proof.
  rewrite handleAgentStop_eq in H.
  pose proof (stopLoop_spec nm rt p [] t) as Hs.
  destruct (stopLoop nm rt p [] t) as [[stopped|e'] t1].
  - discriminate.
  - inversion H; subst. destruct Hs as [Hc _]. exact Hc.
Qed.

(** C5: in a batch [A; B] where both have records and stopping A fails,
    the handler returns the wrapped error after exactly one runtime call
    (the stop of A): B is not processed, the table is unchanged and nothing
    is published. *)
Theorem C5_stop_failure_aborts_batch (nm : string -> string) (rt : Runtime)
  (A B : AgentConfig) (cA cB : DockerContainer) (e : goerr) (t : TxNodeService)
  (HA : getContainerUnsafe (ContainerName nm A) (containers t) = Some cA)
  (HB : getContainerUnsafe (ContainerName nm B) (containers t) = Some cB)
  (Hstop : rt_stopContainer rt (events t) (ID cA) = Some e) :
  fst (handleAgentStop nm rt [A; B] t) = Some (ErrStopFailed (ID cA) e) /\
  containers (snd (handleAgentStop nm rt [A; B] t)) = containers t /\
  events (snd (handleAgentStop nm rt [A; B] t)) = Call (StopContainer (ID cA)) :: events t.
Proof.
  rewrite handleAgentStop_eq, (stopLoop_cons_present nm rt A [B] [] t cA HA), Hstop.
  cbn. auto.
Qed.

(** C4 as the code has it: for a descriptor with no record, its iteration
    makes no runtime call (every stop call is for the record of another
    name) and, once reached (no stop before it in the message has failed),
    logs a skip; when no stop call fails, the whole incoming payload, the
    skipped descriptor included, is published on "agents:status:stopped";
    when one fails nothing is published. *)
Theorem C4_absent_descriptor_stop (nm : string -> string) (rt : Runtime)
  (p : list AgentConfig) (a : AgentConfig) (t : TxNodeService)
  (Hin : In a p)
  (Habs : getContainerUnsafe (ContainerName nm a) (containers t) = None) :
  exists new,
    events (snd (handleAgentStop nm rt p t)) = new ++ events t /\
    (forall cid, In (Call (StopContainer cid)) new ->
       exists c b, In c (containers t) /\ ID c = cid /\ In b p /\
                   Name c = ContainerName nm b /\ Name c <> ContainerName nm a) /\
    (forall pre post, p = pre ++ a :: post ->
       (exists s, fst (stopLoop nm rt pre [] t) = Ok s) ->
       In (Log (LogStopSkipped (ContainerName nm a))) new) /\
    (fst (handleAgentStop nm rt p t) = None ->
       In (Log (LogStopSkipped (ContainerName nm a))) new /\
       In (Publish SubjectAgentsStatusStopped p) new) /\
    (fst (handleAgentStop nm rt p t) <> None ->
       forall q, ~ In (Publish SubjectAgentsStatusStopped q) new).
Proof.
  assert (Hreach : forall pre post, p = pre ++ a :: post ->
            (exists s, fst (stopLoop nm rt pre [] t) = Ok s) ->
            exists new', events (snd (stopLoop nm rt p [] t)) = new' ++ events t /\
              In (Log (LogStopSkipped (ContainerName nm a))) new').
  { intros pre post -> Hok. exact (stopLoop_reaches_absent nm rt pre post a t Habs Hok). }
  rewrite handleAgentStop_eq.
  pose proof (stopLoop_spec nm rt p [] t) as Hs.
  revert Hreach.
  destruct (stopLoop nm rt p [] t) as [r t1]. intros Hreach. cbn [snd] in Hreach.
  destruct Hs as [_ [_ [_ [new [Hev [Hpub [Hcall Hskip]]]]]]].
  assert (Hcalls : forall cid, In (Call (StopContainer cid)) new ->
       exists c b, In c (containers t) /\ ID c = cid /\ In b p /\
                   Name c = ContainerName nm b /\ Name c <> ContainerName nm a).
  { intros cid Hc. destruct (Hcall cid Hc) as [c [b [Hb [Hg Hid]]]].
    destruct (getContainerUnsafe_some _ _ _ Hg) as [Hc' Hn].
    exists c, b. repeat split; auto.
    exact (getContainerUnsafe_none _ _ Habs c Hc'). }
  assert (Hpre : forall pre post, p = pre ++ a :: post ->
            (exists s, fst (stopLoop nm rt pre [] t) = Ok s) ->
            In (Log (LogStopSkipped (ContainerName nm a))) new).
  { intros pre post Hp Hok. destruct (Hreach pre post Hp Hok) as [new' [Hev' Hin']].
    rewrite Hev in Hev'. apply app_inv_tail in Hev'. subst new'. exact Hin'. }
  assert (Hlen : Nat.ltb 0 (length p) = true).
  { destruct p; [destruct Hin|reflexivity]. }
  destruct r as [stopped|e]; [rewrite Hlen|]; cbn.
  - exists (Publish SubjectAgentsStatusStopped p :: new). rewrite Hev.
    split; [reflexivity|]. split; [|split; [|split]].
    + intros cid [H|H]; [discriminate|exact (Hcalls cid H)].
    + intros pre post Hp Hok. right. exact (Hpre pre post Hp Hok).
    + intros _. split; [right; exact (Hskip stopped eq_refl a Hin Habs)|left; reflexivity].
    + intros H; contradiction.
  - exists new. split; [exact Hev|]. split; [exact Hcalls|]. split; [exact Hpre|]. split.
    + discriminate.
    + intros _ q. apply Hpub.
Qed.

Lemma C9_stop_error_keeps_table_witness :
  exists t' e,
    handleAgentStop agentName secondStopFailsRuntime [agentA; agentB] (service [recA; recB])
      = (Some e, t') /\
    containers t' = [recA; recB] /\
    In (Log (LogStopped (agentName "a"))) (events t').
Proof.
  eexists; eexists. split; [reflexivity|]. split.
  - exact (C9_stop_error_keeps_table agentName secondStopFailsRuntime [agentA; agentB]
             (service [recA; recB]) _ _ eq_refl).
  - cbn. auto.
Defined.

Lemma C5_stop_failure_aborts_batch_witness :
  getContainerUnsafe (ContainerName agentName agentA) [recA; recB] = Some recA /\
  getContainerUnsafe (ContainerName agentName agentB) [recA; recB] = Some recB /\
  fst (handleAgentStop agentName stopFailsRuntime [agentA; agentB] (service [recA; recB]))
    = Some (ErrStopFailed "id-a" (ErrMsg "stop failed")) /\
  containers (snd (handleAgentStop agentName stopFailsRuntime [agentA; agentB]
                     (service [recA; recB]))) = [recA; recB].
Proof.
  split; [reflexivity|]. split; [reflexivity|].
  destruct (C5_stop_failure_aborts_batch agentName stopFailsRuntime agentA agentB recA recB
              (ErrMsg "stop failed") (service [recA; recB]) eq_refl eq_refl eq_refl)
    as [H1 [H2 _]].
  split; [exact H1|exact H2].
Defined.

Lemma C4_absent_descriptor_stop_witness :
  In agentA [agentA; agentB] /\
  getContainerUnsafe (ContainerName agentName agentA) [recB] = None /\
  fst (handleAgentStop agentName stopFailsRuntime [agentA; agentB] (service [recB])) <> None /\
  exists new,
    events (snd (handleAgentStop agentName stopFailsRuntime [agentA; agentB] (service [recB])))
      = new ++ [] /\
    In (Log (LogStopSkipped (agentName "a"))) new /\
    forall q, ~ In (Publish SubjectAgentsStatusStopped q) new.
Proof.
  split; [left; reflexivity|]. split; [reflexivity|].
  assert (Hfail : fst (handleAgentStop agentName stopFailsRuntime [agentA; agentB]
                         (service [recB])) <> None) by discriminate.
  split; [exact Hfail|].
  destruct (C4_absent_descriptor_stop agentName stopFailsRuntime [agentA; agentB] agentA
              (service [recB]) (or_introl eq_refl) eq_refl)
    as [new [Hev [_ [Hpre [_ Hnopub]]]]].
  exists new. split; [exact Hev|]. split.
  - exact (Hpre [] [agentB] eq_refl (ex_intro _ [] eq_refl)).
  - exact (Hnopub Hfail).
Defined.

(** The claim fails on the code: stopping an agent that was never started
    publishes a "stopped" batch that contains that agent. *)
Lemma C4_counterexample :
  handleAgentStop agentName okRuntime [agentA] (service [])
  = (None, mkTxNodeService [] "scanner-id" "json-rpc-id"
             [Publish SubjectAgentsStatusStopped [agentA];
              Log (LogStopSkipped (agentName "a"))]).
Proof. reflexivity. Qed.

Lemma countStartCalls_app n (l1 l2 : list event) :
  countStartCalls n (l1 ++ l2) = countStartCalls n l1 + countStartCalls n l2.
Proof.
  induction l1 as [|[c|sj q|m] l1 IH]; cbn; auto.
  destruct c; cbn; rewrite ?IH; auto. lia.
Qed.

Lemma countRunningPublications_app a (l1 l2 : list event) :
  countRunningPublications a (l1 ++ l2) =
  countRunningPublications a l1 + countRunningPublications a l2.
Proof.
  induction l1 as [|[c|sj q|m] l1 IH]; cbn; auto.
  destruct sj; auto. destruct q as [|b [|b' q]]; cbn; rewrite ?IH; auto. lia.
Qed.


Lemma hasContainer_app n (cs : list DockerContainer) m id :
  hasContainer n (cs ++ [mkDockerContainer m id]) = hasContainer n cs || String.eqb m n.
Proof.
  unfold hasContainer. induction cs as [|c cs IH]; cbn.
  - destruct (String.eqb m n); reflexivity.
  - destruct (String.eqb (Name c) n); [reflexivity|exact IH].
Qed.

(** Each attach call of the loop is recorded; the loop never touches the
    table; with tolerated answers only, it ends with nil. *)
Lemma attachAll_spec (rt : Runtime) ids nw t :
  let (r, t') := attachAll rt ids nw t in
  containers t' = containers t /\
  (exists new, events t' = new ++ events t /\
     Forall (fun ev => exists c, ev = Call (AttachNetwork c nw)) new) /\
  ((forall h c, attachTolerated (rt_attachNetwork rt h c nw) = true) -> r = None).
Proof.
  revert t. induction ids as [|c ids IH]; intros t.
  - cbn. split; [reflexivity|]. split; [exists []; auto|auto].
  - cbn [attachAll]. unfold bind, attachNetwork, runtimeCall.
    destruct (rt_attachNetwork rt (events t) c nw) as [e|] eqn:E;
      [destruct (isErrAlreadyExistsInNetwork e) eqn:Ea|].
    1,3: specialize (IH (add_event (Call (AttachNetwork c nw)) t));
      destruct (attachAll rt ids nw _) as [r t'];
      destruct IH as [Hc [[new [Hev Hf]] Hr]];
      split; [exact Hc|]; split; [|exact Hr];
      exists (new ++ [Call (AttachNetwork c nw)]); rewrite Hev, <- app_assoc;
      split; [reflexivity|]; apply Forall_app; split; [exact Hf|]; repeat constructor; eauto.
    cbn. split; [reflexivity|]. split.
    + exists [Call (AttachNetwork c nw)]. split; [reflexivity|]. repeat constructor; eauto.
    + intros Ht. specialize (Ht (events t) c). rewrite E in Ht. cbn in Ht. congruence.
Qed.

Lemma attach_segment_quiet (nw : string) (new : list event) :
  Forall (fun ev => exists c, ev = Call (AttachNetwork c nw)) new ->
  (forall s q, ~ In (Publish s q) new) /\ (forall n, countStartCalls n new = 0) /\
  (forall b, countRunningPublications b new = 0).
Proof.
  induction 1 as [|ev new [c ->] _ [Hp [Hs Hr]]]; cbn.
  - repeat split; auto.
  - split; [|split; auto]. intros s q [H|H]; [discriminate|exact (Hp s q H)].
Qed.

Ltac case_runtime_answer :=
  match goal with
  | |- context [rt_ensureLocalImage ?rt ?h ?n ?i ?b] =>
      destruct (rt_ensureLocalImage rt h n i b)
  | |- context [rt_createPublicNetwork ?rt ?h ?n] =>
      destruct (rt_createPublicNetwork rt h n)
  | |- context [rt_startContainer ?rt ?h ?c] =>
      destruct (rt_startContainer rt h c)
  end.

(** Solves [exists new, ev1 :: ... :: evk :: l = new ++ l /\ _] up to
    its second conjunct. *)
Ltac exists_prefix :=
  match goal with
  | |- exists new, ?l = new ++ ?r /\ _ =>
    let rec go l :=
      lazymatch l with
      | r => constr:(@nil event)
      | ?x :: ?l' => let n := go l' in constr:(x :: n)
      end in
    let n := go l in exists n; split; [reflexivity|]
  end.

(** Solves [In x l] for an explicit list [l] having [x] syntactically. *)
Ltac solve_in := solve [cbn [In]; repeat (first [left; reflexivity | right])].

Section RunFacts.

Variable nm gp : string -> string.
Variable rt : Runtime.

Lemma runLoop_cons_present (a : AgentConfig) rest t c :
  getContainerUnsafe (ContainerName nm a) (containers t) = Some c ->
  runLoop nm gp rt (a :: rest) t =
  runLoop nm gp rt rest (add_event (Publish SubjectAgentsStatusRunning [a])
                           (add_event (Log (LogAlreadyRunning (ContainerName nm a))) t)).
Proof. intros H. cbn. rewrite H. reflexivity. Qed.

Lemma runLoop_cons_absent (a : AgentConfig) rest t :
  getContainerUnsafe (ContainerName nm a) (containers t) = None ->
  runLoop nm gp rt (a :: rest) t =
  let (err, t1) := startAgent nm gp rt a t in
  match err with
  | Some e => runLoop nm gp rt rest (add_event (Log (LogStartFailed e)) t1)
  | None => runLoop nm gp rt rest (add_event (Publish SubjectAgentsStatusRunning [a]) t1)
  end.
Proof.
  intros H. cbn [runLoop]. unfold bind at 1, get. rewrite H. unfold bind at 1.
  destruct (startAgent nm gp rt a t) as [[e|] t1]; reflexivity.
Qed.

(** startAgent publishes nothing and either leaves the table alone (on an
    error) or appends one record under the agent's container name. *)
Lemma startAgent_spec (a : AgentConfig) t :
  let (r, t') := startAgent nm gp rt a t in
  (exists new, events t' = new ++ events t /\ forall s q, ~ In (Publish s q) new) /\
  match r with
  | Some _ => containers t' = containers t
  | None => exists id, containers t' = containers t ++ [mkDockerContainer (ContainerName nm a) id]
  end.
Proof.
  unfold startAgent, bind, get, ret, ensureLocalImage, createPublicNetwork, startContainer,
    runtimeCall, addContainerUnsafe.
  repeat (case_runtime_answer; cbn [events add_event containers]);
    try (split; [exists_prefix; intros s q Hin; cbn in Hin; intuition discriminate
                |reflexivity]).
  match goal with |- context [attachAll ?rt ?ids ?nw ?t0] =>
    pose proof (attachAll_spec rt ids nw t0) as Ha; destruct (attachAll rt ids nw t0) as [r t'] end.
  destruct Ha as [Hc [[new [Hev Hf]] _]].
  destruct (attach_segment_quiet _ _ Hf) as [Hq _].
  cbn in Hc, Hev.
  destruct r as [e|]; cbn; (split;
    [exists (new ++ [Call (StartContainer (agentContainerConfig nm gp a a0));
                    Call (CreatePublicNetwork (ContainerName nm a));
                    Call (EnsureLocalImage ("agent " ++ AgentID a) (AgentImage a) true)]);
     rewrite Hev, <- app_assoc; split; [reflexivity|];
     intros s q Hin; apply in_app_or in Hin; destruct Hin as [Hin|Hin];
       [exact (Hq s q Hin)|cbn in Hin; intuition discriminate]
    |]).
  - exact Hc.
  - eexists. rewrite Hc. reflexivity.
Qed.

(** On a healthy runtime startAgent succeeds after exactly one
    start-container call, for the agent's name, and records the agent. *)
Lemma startAgent_healthy (Hh : runtimeHealthy rt) (a : AgentConfig) t :
  let (r, t') := startAgent nm gp rt a t in
  r = None /\
  (exists id, containers t' = containers t ++ [mkDockerContainer (ContainerName nm a) id]) /\
  exists new, events t' = new ++ events t /\
    (forall n, countStartCalls n new = if String.eqb (ContainerName nm a) n then 1 else 0) /\
    (forall b, countRunningPublications b new = 0).
Proof.
  destruct Hh as [He [Hn [Hs Ha]]].
  unfold startAgent, bind, get, ret, ensureLocalImage, createPublicNetwork, startContainer,
    runtimeCall, addContainerUnsafe.
  rewrite He. cbn [events add_event containers].
  match goal with |- context [rt_createPublicNetwork rt ?h ?n] =>
    destruct (Hn h n) as [nw Hnw]; rewrite Hnw end.
  match goal with |- context [rt_startContainer rt ?h ?c] =>
    destruct (Hs h c) as [id Hid]; rewrite Hid end.
  match goal with |- context [attachAll ?rt ?ids ?nw ?t0] =>
    pose proof (attachAll_spec rt ids nw t0) as HA; destruct (attachAll rt ids nw t0) as [r t'] end.
  destruct HA as [Hc [[new [Hev Hf]] Hr]].
  rewrite (Hr (fun h c => Ha h c nw)).
  destruct (attach_segment_quiet _ _ Hf) as [_ [Hsc Hrp]].
  cbn in Hc, Hev |- *. split; [reflexivity|]. split.
  - exists id. rewrite Hc. reflexivity.
  - exists (new ++ [Call (StartContainer (agentContainerConfig nm gp a nw));
                    Call (CreatePublicNetwork (ContainerName nm a));
                    Call (EnsureLocalImage ("agent " ++ AgentID a) (AgentImage a) true)]).
    rewrite Hev, <- app_assoc. split; [reflexivity|]. split.
    + intros n. rewrite countStartCalls_app, Hsc. cbn. lia.
    + intros b. rewrite countRunningPublications_app, Hrp. reflexivity.
Qed.


(** On a healthy runtime the loop publishes "running" once per descriptor
    and starts a name exactly when it has no record and the payload has it. *)
Lemma runLoop_healthy (Hh : runtimeHealthy rt) (p : list AgentConfig) t :
  exists new, events (snd (runLoop nm gp rt p t)) = new ++ events t /\
    (forall b, countRunningPublications b new =
               length (filter (fun x => AgentConfig_eqb x b) p)) /\
    (forall n, countStartCalls n new =
       if hasContainer n (containers t)
          || negb (existsb (fun x => String.eqb (ContainerName nm x) n) p) then 0 else 1) /\
    (forall n, hasContainer n (containers (snd (runLoop nm gp rt p t))) =
       hasContainer n (containers t)
       || existsb (fun x => String.eqb (ContainerName nm x) n) p).
Proof.
  revert t. induction p as [|a rest IH]; intros t.
  - exists []. cbn [runLoop ret snd app existsb filter length countStartCalls
                     countRunningPublications negb].
    split; [reflexivity|]. split; [reflexivity|].
    split; intros n; destruct (hasContainer n (containers t)); reflexivity.
  - destruct (getContainerUnsafe (ContainerName nm a) (containers t)) as [c|] eqn:Hg.
    + rewrite (runLoop_cons_present a rest t c Hg).
      destruct (IH (add_event (Publish SubjectAgentsStatusRunning [a])
                      (add_event (Log (LogAlreadyRunning (ContainerName nm a))) t)))
        as [new [Hev [Hr [Hs Hk]]]].
      cbn in Hev, Hs, Hk.
      exists (new ++ [Publish SubjectAgentsStatusRunning [a];
                      Log (LogAlreadyRunning (ContainerName nm a))]).
      rewrite Hev, <- app_assoc. split; [reflexivity|]. split; [|split].
      * intros b. rewrite countRunningPublications_app, Hr. cbn.
        destruct (AgentConfig_eqb a b); cbn; lia.
      * intros n. rewrite countStartCalls_app, Hs. cbn.
        destruct (String.eqb_spec (ContainerName nm a) n) as [<-|Hne].
        -- unfold hasContainer at 1 2. rewrite Hg. reflexivity.
        -- cbn. lia.
      * intros n. rewrite Hk. cbn.
        destruct (String.eqb_spec (ContainerName nm a) n) as [<-|Hne]; cbn; [|reflexivity].
        unfold hasContainer. rewrite Hg. reflexivity.
    + rewrite (runLoop_cons_absent a rest t Hg).
      pose proof (startAgent_healthy Hh a t) as Hs.
      destruct (startAgent nm gp rt a t) as [r t1].
      destruct Hs as [-> [[id Hc] [new1 [Hev1 [Hs1 Hr1]]]]].
      destruct (IH (add_event (Publish SubjectAgentsStatusRunning [a]) t1))
        as [new [Hev [Hr [Hs Hk]]]].
      cbn in Hev, Hs, Hk. rewrite Hc in Hs, Hk.
      exists (new ++ Publish SubjectAgentsStatusRunning [a] :: new1).
      rewrite Hev, Hev1, <- app_assoc. split; [reflexivity|]. split; [|split].
      * intros b. rewrite countRunningPublications_app, Hr. cbn.
        rewrite Hr1. destruct (AgentConfig_eqb a b); cbn; lia.
      * intros n. rewrite countStartCalls_app, Hs, hasContainer_app. cbn.
        rewrite Hs1.
        destruct (String.eqb_spec (ContainerName nm a) n) as [<-|Hne]; cbn.
        -- unfold hasContainer. rewrite Hg. reflexivity.
        -- rewrite orb_false_r. destruct (_ || _); reflexivity.
      * intros n. rewrite Hk, hasContainer_app. cbn.
        rewrite orb_assoc. reflexivity.
Qed.

End RunFacts.


Lemma handleAgentRun_eq (nm gp : string -> string) (rt : Runtime) p t :
  handleAgentRun nm gp rt p t =
  (None, snd (runLoop nm gp rt p (add_event (Log (LogHandleAgentRun (length p))) t))).
Proof. unfold handleAgentRun, bind, emit, ret. destruct (runLoop nm gp rt p _); reflexivity. Qed.


(** C8: for a descriptor with no record whose image, network and container
    steps succeed, startAgent attaches the scanner and then the JSON-RPC
    proxy to the new network.  When both answers are nil or "already
    attached", the agent is recorded and "running" is published; any other
    answer ends this agent's start with that error logged, no record and no
    publication.  Either way the handler goes on with the rest of the
    batch. *)
Theorem C8_attach_tolerance (nm gp : string -> string) (rt : Runtime)
  (a : AgentConfig) (rest : list AgentConfig) (t : TxNodeService)
  (nw cid : string) (rs rj : option goerr)
  (Habs : getContainerUnsafe (ContainerName nm a) (containers t) = None)
  (Hens : forall h name image pull, rt_ensureLocalImage rt h name image pull = None)
  (Hnet : forall h name, rt_createPublicNetwork rt h name = Ok nw)
  (Hstart : forall h cfg, rt_startContainer rt h cfg = Ok cid)
  (Hs : forall h, rt_attachNetwork rt h (scannerContainerID t) nw = rs)
  (Hj : forall h, rt_attachNetwork rt h (jsonRpcContainerID t) nw = rj) :
  exists t1,
    runLoop nm gp rt (a :: rest) t = runLoop nm gp rt rest t1 /\
    exists new, events t1 = new ++ events t /\
    In (Call (AttachNetwork (scannerContainerID t) nw)) new /\
    if attachTolerated rs && attachTolerated rj then
      containers t1 = containers t ++ [mkDockerContainer (ContainerName nm a) cid] /\
      In (Call (AttachNetwork (jsonRpcContainerID t) nw)) new /\
      In (Publish SubjectAgentsStatusRunning [a]) new
    else
      containers t1 = containers t /\
      (forall s q, ~ In (Publish s q) new) /\
      exists e, In (Log (LogStartFailed e)) new /\ isErrAlreadyExistsInNetwork e = false.
Proof.
  rewrite (runLoop_cons_absent nm gp rt a rest t Habs).
  unfold startAgent, bind, get, ret, ensureLocalImage, createPublicNetwork, startContainer,
    runtimeCall, addContainerUnsafe.
  rewrite Hens. cbn [events add_event containers scannerContainerID jsonRpcContainerID].
  rewrite Hnet. cbn [events add_event containers scannerContainerID jsonRpcContainerID].
  rewrite Hstart. cbn [events add_event containers scannerContainerID jsonRpcContainerID
                       attachAll attachNetwork runtimeCall bind ret].
  rewrite Hs. cbn [events add_event containers scannerContainerID jsonRpcContainerID].
  destruct rs as [[|m|c0 e0]|]; cbn [isErrAlreadyExistsInNetwork attachTolerated andb];
    cbn [attachAll attachNetwork runtimeCall bind ret events add_event
         scannerContainerID jsonRpcContainerID containers];
    rewrite ?Hj;
    try (destruct rj as [[|m'|c1 e1]|]; cbn [isErrAlreadyExistsInNetwork attachTolerated andb]);
    eexists; (split; [reflexivity|]); cbn [events add_event set_containers containers];
    exists_prefix; (split; [solve_in|]);
    first
      [ split; [reflexivity|]; split; solve_in
      | split; [reflexivity|]; split;
          [intros s q Hin; cbn in Hin; intuition discriminate
          |eexists; split; [solve_in|reflexivity]] ].
Qed.

Lemma C8_attach_tolerance_witness :
  getContainerUnsafe (ContainerName agentName agentA) (containers (service [])) = None /\
  exists t1,
    runLoop agentName agentPort alreadyAttachedRuntime [agentA; agentB] (service [])
      = runLoop agentName agentPort alreadyAttachedRuntime [agentB] t1 /\
    containers t1 = [mkDockerContainer (agentName "a") "agent-container-id"] /\
    In (Publish SubjectAgentsStatusRunning [agentA]) (events t1).
Proof.
  split; [reflexivity|].
  destruct (C8_attach_tolerance agentName agentPort alreadyAttachedRuntime agentA [agentB]
              (service []) "agent-network" "agent-container-id"
              (Some ErrAlreadyExistsInNetwork) (Some ErrAlreadyExistsInNetwork)
              eq_refl (fun _ _ _ _ => eq_refl) (fun _ _ => eq_refl) (fun _ _ => eq_refl)
              (fun _ => eq_refl) (fun _ => eq_refl))
    as [t1 [Hrun [new [Hev [_ [Hc [_ Hpub]]]]]]].
  exists t1. split; [exact Hrun|]. split; [exact Hc|].
  rewrite Hev. apply in_or_app. left. exact Hpub.
Defined.


End ContainersFacts.

(** * Further properties of the Fleet Supervisor *)
Module SupervisorFacts.

Import Containers Scenarios ContainersFacts.
Open Scope list_scope.

(** The IDs a successful stop loop has stopped: those already in [acc] and
    the IDs of the records found for the descriptors of [p]. *)
Lemma stopLoop_ok_stopped (nm : string -> string) (rt : Runtime) (p : list AgentConfig) :
  forall acc t stopped t',
  stopLoop nm rt p acc t = (Ok stopped, t') ->
  forall id, isStopped stopped id =
    isStopped acc id ||
    existsb (fun b => match getContainerUnsafe (ContainerName nm b) (containers t) with
                      | Some c => String.eqb id (ID c)
                      | None => false
                      end) p.
Proof.
  induction p as [|b rest IH]; intros acc t stopped t' H id.
  - cbn in H. inversion H; subst. cbn. rewrite orb_false_r. reflexivity.
  - destruct (getContainerUnsafe (ContainerName nm b) (containers t)) as [c|] eqn:Hg.
    + rewrite (stopLoop_cons_present nm rt b rest acc t c Hg) in H.
      destruct (rt_stopContainer rt (events t) (ID c)); [discriminate|].
      rewrite (IH _ _ _ _ H id). cbn [existsb containers add_event]. rewrite Hg.
      unfold isStopped. cbn [existsb].
      destruct (String.eqb id (ID c)), (existsb (String.eqb id) acc); reflexivity.
    + rewrite (stopLoop_cons_absent nm rt b rest acc t Hg) in H.
      rewrite (IH _ _ _ _ H id). cbn [existsb containers add_event]. rewrite Hg.
      reflexivity.
Qed.

(** The loop of handleAgentRun only appends to the table, and only records
    named after descriptors of the batch. *)
Lemma runLoop_appends (nm gp : string -> string) (rt : Runtime) (p : list AgentConfig) :
  forall t, exists added,
    containers (snd (runLoop nm gp rt p t)) = containers t ++ added /\
    Forall (fun c => exists b, In b p /\ Name c = ContainerName nm b) added.
Proof.
  induction p as [|a rest IH]; intros t.
  - exists []. cbn. rewrite app_nil_r. split; [reflexivity|constructor].
  - destruct (getContainerUnsafe (ContainerName nm a) (containers t)) as [c|] eqn:Hg.
    + rewrite (runLoop_cons_present nm gp rt a rest t c Hg).
      destruct (IH (add_event (Publish SubjectAgentsStatusRunning [a])
                      (add_event (Log (LogAlreadyRunning (ContainerName nm a))) t)))
        as [added [Hc Hf]].
      exists added. split; [exact Hc|].
      apply (Forall_impl _ (fun c0 (H : exists b, In b rest /\ _) =>
               let (b, Hb) := H in ex_intro _ b (conj (or_intror (proj1 Hb)) (proj2 Hb)))).
      exact Hf.
    + rewrite (runLoop_cons_absent nm gp rt a rest t Hg).
      pose proof (startAgent_spec nm gp rt a t) as Hs.
      destruct (startAgent nm gp rt a t) as [[e|] t1]; destruct Hs as [_ Hc1].
      * destruct (IH (add_event (Log (LogStartFailed e)) t1)) as [added [Hc Hf]].
        exists added. cbn in Hc. rewrite Hc, Hc1. split; [reflexivity|].
        apply (Forall_impl _ (fun c0 (H : exists b, In b rest /\ _) =>
                 let (b, Hb) := H in ex_intro _ b (conj (or_intror (proj1 Hb)) (proj2 Hb)))).
        exact Hf.
      * destruct Hc1 as [id Hc1].
        destruct (IH (add_event (Publish SubjectAgentsStatusRunning [a]) t1)) as [added [Hc Hf]].
        exists (mkDockerContainer (ContainerName nm a) id :: added).
        cbn in Hc. rewrite Hc, Hc1, <- app_assoc. split; [reflexivity|].
        constructor; [exists a; split; [left; reflexivity|reflexivity]|].
        apply (Forall_impl _ (fun c0 (H : exists b, In b rest /\ _) =>
                 let (b, Hb) := H in ex_intro _ b (conj (or_intror (proj1 Hb)) (proj2 Hb)))).
        exact Hf.
Qed.

(** getContainerUnsafe returns the first record carrying the name, and nil
    exactly when no record does; a lookup in a table extended by
    addContainerUnsafe finds an existing record before an appended one. *)
Theorem getContainerUnsafe_first_match (n : string) (cs : list DockerContainer) :
  (getContainerUnsafe n cs = None <-> forall c, In c cs -> Name c <> n) /\
  (forall c, getContainerUnsafe n cs = Some c ->
     exists pre post, cs = pre ++ c :: post /\ Name c = n /\
                      forall c', In c' pre -> Name c' <> n) /\
  (forall cs', getContainerUnsafe n (cs ++ cs') =
     match getContainerUnsafe n cs with
     | Some c => Some c
     | None => getContainerUnsafe n cs'
     end).
Proof.
  split; [|split].
  - split; [apply getContainerUnsafe_none|].
    induction cs as [|c' cs IH]; intros H; cbn; [reflexivity|].
    destruct (String.eqb_spec (Name c') n) as [E|E].
    + exfalso. exact (H c' (or_introl eq_refl) E).
    + apply IH. intros c Hc. exact (H c (or_intror Hc)).
  - induction cs as [|c' cs IH]; intros c H; cbn in H; [discriminate|].
    destruct (String.eqb_spec (Name c') n) as [E|E].
    + inversion H; subst. exists [], cs. split; [reflexivity|]. split; [reflexivity|].
      intros _ [].
    + destruct (IH c H) as [pre [post [-> [Hn Hpre]]]]. exists (c' :: pre), post.
      split; [reflexivity|]. split; [exact Hn|].
      intros c0 [<-|Hc0]; [exact E|exact (Hpre c0 Hc0)].
  - intros cs'. induction cs as [|c' cs IH]; cbn; [reflexivity|].
    destruct (String.eqb (Name c') n); [reflexivity|exact IH].
Qed.

(** When handleAgentStop returns nil, the table has lost exactly the
    records whose ID is the ID of the record found for some descriptor of
    the payload; the other records stay, in their order. *)
Theorem handleAgentStop_success_table (nm : string -> string) (rt : Runtime)
  (p : list AgentConfig) (t t' : TxNodeService)
  (H : handleAgentStop nm rt p t = (None, t')) :
  containers t' =
  filter (fun c => negb (existsb (fun b =>
                     match getContainerUnsafe (ContainerName nm b) (containers t) with
                     | Some c' => String.eqb (ID c) (ID c')
                     | None => false
                     end) p))
         (containers t).
Proof.
  rewrite handleAgentStop_eq in H.
  pose proof (stopLoop_spec nm rt p [] t) as Hs.
  destruct (stopLoop nm rt p [] t) as [[stopped|e] t1] eqn:E; [|discriminate].
  destruct Hs as [Hc _].
  pose proof (stopLoop_ok_stopped nm rt p [] t stopped t1 E) as Hk.
  injection H as Ht'. subst t'.
  assert (Hc' : forall t2 : TxNodeService,
                containers (if Nat.ltb 0 (length p)
                            then add_event (Publish SubjectAgentsStatusStopped p) t2 else t2)
                = containers t2).
  { intros t2. destruct (Nat.ltb 0 (length p)); reflexivity. }
  rewrite Hc'. cbn [containers set_containers]. rewrite Hc.
  apply filter_ext. intros c. rewrite Hk. reflexivity.
Qed.

Lemma handleAgentStop_success_table_witness :
  let t' := snd (handleAgentStop agentName okRuntime [agentA] (service [recA; recB])) in
  handleAgentStop agentName okRuntime [agentA] (service [recA; recB]) = (None, t') /\
  containers t' = [recB].
Proof.
  cbv zeta.
  assert (E : handleAgentStop agentName okRuntime [agentA] (service [recA; recB]) =
              (None, snd (handleAgentStop agentName okRuntime [agentA] (service [recA; recB]))))
    by reflexivity.
  split; [exact E|].
  rewrite (handleAgentStop_success_table agentName okRuntime [agentA] (service [recA; recB]) _ E).
  reflexivity.
Defined.

(** The table is updated only after the loop, so a descriptor listed twice
    in one "stop agents" message stops its container twice. *)
Theorem handleAgentStop_duplicate_descriptor (nm : string -> string) (rt : Runtime)
  (a : AgentConfig) (c : DockerContainer) (t : TxNodeService)
  (Hg : getContainerUnsafe (ContainerName nm a) (containers t) = Some c)
  (Hstop : forall h, rt_stopContainer rt h (ID c) = None) :
  exists t',
    handleAgentStop nm rt [a; a] t = (None, t') /\
    events t' = [Publish SubjectAgentsStatusStopped [a; a];
                 Log (LogStopped (ContainerName nm a)); Call (StopContainer (ID c));
                 Log (LogStopped (ContainerName nm a)); Call (StopContainer (ID c))]
                ++ events t /\
    ~ In c (containers t').
Proof.
  rewrite handleAgentStop_eq, (stopLoop_cons_present nm rt a [a] [] t c Hg), Hstop.
  rewrite (stopLoop_cons_present nm rt a [] [ID c]
             (add_event (Log (LogStopped (ContainerName nm a)))
                (add_event (Call (StopContainer (ID c))) t)) c Hg), Hstop.
  cbn [stopLoop ret length Nat.ltb Nat.leb].
  eexists. split; [reflexivity|]. split; [reflexivity|].
  cbn [containers add_event set_containers]. intros Hin.
  apply filter_In in Hin. destruct Hin as [_ Hin].
  unfold isStopped in Hin. cbn [existsb] in Hin. rewrite String.eqb_refl in Hin.
  discriminate.
Qed.

Lemma handleAgentStop_duplicate_descriptor_witness :
  getContainerUnsafe (ContainerName agentName agentA) (containers (service [recA; recB]))
    = Some recA /\
  exists t',
    handleAgentStop agentName okRuntime [agentA; agentA] (service [recA; recB]) = (None, t') /\
    length (filter isStopCall (events t')) = 2 /\ containers t' = [recB].
Proof.
  split; [reflexivity|].
  destruct (handleAgentStop_duplicate_descriptor agentName okRuntime agentA recA
              (service [recA; recB]) eq_refl (fun _ => eq_refl)) as [t' [H [Hev _]]].
  exists t'. split; [exact H|]. split.
  - rewrite Hev. reflexivity.
  - rewrite (handleAgentStop_success_table agentName okRuntime [agentA; agentA]
               (service [recA; recB]) t' H).
    reflexivity.
Defined.

(** An empty "stop agents" message changes nothing at all (no runtime
    call, no publication, same table); an empty "run agents" message only
    writes its log line. *)
Theorem handlers_empty_payload (nm gp : string -> string) (rt : Runtime) (t : TxNodeService) :
  handleAgentStop nm rt [] t = (None, t) /\
  handleAgentRun nm gp rt [] t = (None, add_event (Log (LogHandleAgentRun 0)) t).
Proof.
  split.
  - rewrite handleAgentStop_eq. cbn [stopLoop ret length Nat.ltb Nat.leb].
    destruct t as [cs s j evs]. unfold set_containers. cbn [containers events
      scannerContainerID jsonRpcContainerID].
    do 2 f_equal. induction cs as [|c cs IH]; [reflexivity|]. cbn [filter].
    rewrite IH. reflexivity.
  - rewrite handleAgentRun_eq. reflexivity.
Qed.

(** handleAgentRun never removes or reorders a record: the old table is a
    prefix of the new one, and every added record is named after a
    descriptor of the batch. *)
Theorem handleAgentRun_appends (nm gp : string -> string) (rt : Runtime)
  (p : list AgentConfig) (t : TxNodeService) :
  exists added,
    containers (snd (handleAgentRun nm gp rt p t)) = containers t ++ added /\
    Forall (fun c => exists b, In b p /\ Name c = ContainerName nm b) added.
Proof.
  rewrite handleAgentRun_eq. cbn [snd].
  exact (runLoop_appends nm gp rt p (add_event (Log (LogHandleAgentRun (length p))) t)).
Qed.

(** On a runtime where every start step succeeds, one "run agents" message
    publishes "running" once per occurrence of a descriptor in the batch,
    and starts a container name once if the batch names it and the table
    has no record of it, never otherwise, even when the batch repeats it. *)
Theorem handleAgentRun_healthy_batch (nm gp : string -> string) (rt : Runtime)
  (p : list AgentConfig) (t : TxNodeService) (Hh : runtimeHealthy rt) :
  exists new,
    events (snd (handleAgentRun nm gp rt p t)) = new ++ events t /\
    (forall b, countRunningPublications b new =
               length (filter (fun x => AgentConfig_eqb x b) p)) /\
    (forall n, countStartCalls n new =
       if hasContainer n (containers t)
          || negb (existsb (fun x => String.eqb (ContainerName nm x) n) p) then 0 else 1).
Proof.
  rewrite handleAgentRun_eq. cbn [snd].
  destruct (runLoop_healthy nm gp rt Hh p (add_event (Log (LogHandleAgentRun (length p))) t))
    as [new [Hev [Hr [Hs _]]]].
  exists (new ++ [Log (LogHandleAgentRun (length p))]).
  rewrite Hev, <- app_assoc. split; [reflexivity|]. split.
  - intros b. rewrite countRunningPublications_app, Hr. cbn. lia.
  - intros n. rewrite countStartCalls_app, Hs. cbn. lia.
Qed.

Lemma handleAgentRun_healthy_batch_witness :
  runtimeHealthy okRuntime /\
  exists new,
    events (snd (handleAgentRun agentName agentPort okRuntime [agentA; agentA; agentB]
                   (service [recB]))) = new ++ [] /\
    countStartCalls (agentName "a") new = 1 /\
    countStartCalls (agentName "b") new = 0 /\
    countRunningPublications agentA new = 2 /\
    countRunningPublications agentB new = 1.
Proof.
  assert (Hh : runtimeHealthy okRuntime).
  { split; [|split; [|split]]; intros; try (eexists; reflexivity); reflexivity. }
  split; [exact Hh|].
  destruct (handleAgentRun_healthy_batch agentName agentPort okRuntime [agentA; agentA; agentB]
              (service [recB]) Hh) as [new [Hev [Hr Hs]]].
  exists new. split; [exact Hev|].
  rewrite !Hs, !Hr. split; [reflexivity|]. split; [reflexivity|]. split; reflexivity.
Defined.

(** startAgent stops at its first failing runtime step and returns its
    error, leaving the table as it was: a failed image check creates no
    network, a failed network creation starts no container, a failed
    container start attaches nothing, and an attach error other than
    "already attached" for the scanner skips the JSON-RPC proxy's attach
    and records nothing; the same error for the proxy records nothing. *)
Theorem startAgent_stops_at_first_failure (nm gp : string -> string) (rt : Runtime)
  (a : AgentConfig) (t : TxNodeService) (e : goerr) (nw cid : string) (rs : option goerr) :
  let ens := Call (EnsureLocalImage ("agent " ++ AgentID a) (AgentImage a) true) in
  let net := Call (CreatePublicNetwork (ContainerName nm a)) in
  let st := Call (StartContainer (agentContainerConfig nm gp a nw)) in
  let atS := Call (AttachNetwork (scannerContainerID t) nw) in
  let atJ := Call (AttachNetwork (jsonRpcContainerID t) nw) in
  (rt_ensureLocalImage rt (events t) ("agent " ++ AgentID a) (AgentImage a) true = Some e ->
     startAgent nm gp rt a t = (Some e, add_event ens t)) /\
  (rt_ensureLocalImage rt (events t) ("agent " ++ AgentID a) (AgentImage a) true = None ->
   rt_createPublicNetwork rt (ens :: events t) (ContainerName nm a) = Err e ->
     startAgent nm gp rt a t = (Some e, add_event net (add_event ens t))) /\
  (rt_ensureLocalImage rt (events t) ("agent " ++ AgentID a) (AgentImage a) true = None ->
   rt_createPublicNetwork rt (ens :: events t) (ContainerName nm a) = Ok nw ->
   rt_startContainer rt (net :: ens :: events t) (agentContainerConfig nm gp a nw) = Err e ->
     startAgent nm gp rt a t = (Some e, add_event st (add_event net (add_event ens t)))) /\
  (rt_ensureLocalImage rt (events t) ("agent " ++ AgentID a) (AgentImage a) true = None ->
   rt_createPublicNetwork rt (ens :: events t) (ContainerName nm a) = Ok nw ->
   rt_startContainer rt (net :: ens :: events t) (agentContainerConfig nm gp a nw) = Ok cid ->
   rt_attachNetwork rt (st :: net :: ens :: events t) (scannerContainerID t) nw = Some e ->
   isErrAlreadyExistsInNetwork e = false ->
     startAgent nm gp rt a t =
     (Some e, add_event atS (add_event st (add_event net (add_event ens t))))) /\
  (rt_ensureLocalImage rt (events t) ("agent " ++ AgentID a) (AgentImage a) true = None ->
   rt_createPublicNetwork rt (ens :: events t) (ContainerName nm a) = Ok nw ->
   rt_startContainer rt (net :: ens :: events t) (agentContainerConfig nm gp a nw) = Ok cid ->
   rt_attachNetwork rt (st :: net :: ens :: events t) (scannerContainerID t) nw = rs ->
   attachTolerated rs = true ->
   rt_attachNetwork rt (atS :: st :: net :: ens :: events t) (jsonRpcContainerID t) nw = Some e ->
   isErrAlreadyExistsInNetwork e = false ->
     startAgent nm gp rt a t =
     (Some e, add_event atJ (add_event atS (add_event st (add_event net (add_event ens t)))))).
Proof.
  cbv zeta.
  unfold startAgent, bind, get, ret, ensureLocalImage, createPublicNetwork, startContainer,
    runtimeCall.
  split; [|split; [|split; [|split]]].
  - intros He. rewrite He. reflexivity.
  - intros He Hn. rewrite He. cbn [events add_event]. rewrite Hn. reflexivity.
  - intros He Hn Hs. rewrite He. cbn [events add_event]. rewrite Hn.
    cbn [events add_event]. rewrite Hs. reflexivity.
  - intros He Hn Hs Ha Hsent. rewrite He. cbn [events add_event]. rewrite Hn.
    cbn [events add_event]. rewrite Hs.
    cbn [events add_event scannerContainerID jsonRpcContainerID attachAll attachNetwork
         runtimeCall bind].
    rewrite Ha, Hsent. reflexivity.
  - intros He Hn Hs Ha Htol Hj Hsent. rewrite He. cbn [events add_event]. rewrite Hn.
    cbn [events add_event]. rewrite Hs.
    cbn [events add_event scannerContainerID jsonRpcContainerID attachAll attachNetwork
         runtimeCall bind].
    rewrite Ha.
    destruct rs as [e0|]; cbn [attachTolerated] in Htol; [rewrite Htol|];
      cbn [events add_event scannerContainerID jsonRpcContainerID attachAll attachNetwork
           runtimeCall bind];
      rewrite Hj, Hsent; reflexivity.
Qed.

Lemma startAgent_stops_at_first_failure_witness :
  let t := service [] in
  let nw := "agent-network" in
  let e := ErrMsg "network unreachable" in
  startAgent agentName agentPort attachFailsRuntime agentA t =
  (Some e,
   add_event (Call (AttachNetwork "scanner-id" nw))
     (add_event (Call (StartContainer (agentContainerConfig agentName agentPort agentA nw)))
        (add_event (Call (CreatePublicNetwork (ContainerName agentName agentA)))
           (add_event (Call (EnsureLocalImage "agent a" "image-a" true)) t)))) /\
  containers (snd (startAgent agentName agentPort attachFailsRuntime agentA t)) = [].
Proof.
  cbv zeta.
  destruct (startAgent_stops_at_first_failure agentName agentPort attachFailsRuntime agentA
              (service []) (ErrMsg "network unreachable") "agent-network" "agent-container-id"
              None) as [_ [_ [_ [H _]]]].
  rewrite (H eq_refl eq_refl eq_refl eq_refl eq_refl). split; reflexivity.
Defined.

End SupervisorFacts.

(** * Further properties of the Inspection Scheduler *)
Module SchedulerFacts.

Import Inspector InspectorFacts.
Open Scope Z_scope.
Open Scope list_scope.

(** The retry loop leaves the slot and the health tracker alone. *)
Lemma retryInspection_keeps (script : list attempt) :
  forall ins,
  inspectCh (snd (retryInspection script ins)) = inspectCh ins /\
  lastErr (snd (retryInspection script ins)) = lastErr ins /\
  inspectEvery (snd (retryInspection script ins)) = inspectEvery ins /\
  latestBlockEventTime (snd (retryInspection script ins)) = latestBlockEventTime ins.
Proof.
  induction script as [|a script IH]; intros ins; [repeat split|].
  cbn [retryInspection].
  destruct (runInspection_events a ins) as [new [Hev [Hp [Herr [Hch Hle]]]]].
  assert (Hce : inspectEvery (snd (runInspection a ins)) = inspectEvery ins /\
                latestBlockEventTime (snd (runInspection a ins)) = latestBlockEventTime ins)
    by (unfold runInspection; destruct (at_err a); split; reflexivity).
  destruct (runInspection a ins) as [err i]. cbn in Herr, Hch, Hle, Hce. subst err.
  destruct Hce as [Hce Hlt].
  destruct (at_err a); [destruct (maxElapsedTime <? at_elapsed a)|]; cbn;
    try (repeat split; assumption).
  destruct (IH i) as [H1 [H2 [H3 H4]]]. repeat split; congruence.
Qed.

(** The retry ends with the first attempt that succeeds or fails past the
    ceiling, whatever follows in the script. *)
Lemma retryInspection_terminal (pre : list attempt) (a : attempt) (post : list attempt) :
  forall ins,
  Forall (fun a => exists e, at_err a = Some e /\ at_elapsed a <= maxElapsedTime) pre ->
  (at_err a = None \/ maxElapsedTime < at_elapsed a) ->
  retryInspection (pre ++ a :: post) ins = retryInspection (pre ++ [a]) ins.
Proof.
  induction pre as [|x pre IH]; intros ins Hpre Ha.
  - cbn [app retryInspection].
    destruct (runInspection_events a ins) as [new [Hev [Hp [Herr _]]]].
    destruct (runInspection a ins) as [err i]. cbn in Herr. subst err.
    destruct (at_err a) as [e|]; [|reflexivity].
    destruct Ha as [Ha|Ha]; [discriminate|].
    replace (maxElapsedTime <? at_elapsed a) with true by (symmetry; apply Z.ltb_lt; exact Ha).
    reflexivity.
  - inversion Hpre as [|? ? [e [He Hel]] Hpre']; subst.
    cbn [app retryInspection].
    destruct (runInspection_events x ins) as [new [Hev [Hp [Herr _]]]].
    destruct (runInspection x ins) as [err i]. cbn in Herr. subst err.
    rewrite He.
    replace (maxElapsedTime <? at_elapsed x) with false by (symmetry; apply Z.ltb_ge; exact Hel).
    exact (IH i Hpre' Ha).
Qed.

(** handleScannerBlock returns nil, stamps the watchdog clock, publishes
    nothing, leaves the cadence and the health tracker alone, and changes
    the slot only from empty to the trigger block minus the cadence (taken
    as uint64), for a positive block that is a multiple of it.  A pending
    request is never overwritten. *)
Theorem handleScannerBlock_slot (now B : Z) (ins : Inspector) (r : option goerr) (ins' : Inspector)
  (H : handleScannerBlock now B ins = Normal (r, ins')) :
  r = None /\ latestBlockEventTime ins' = now /\
  inspectEvery ins' = inspectEvery ins /\ lastErr ins' = lastErr ins /\
  (exists new, ins_events ins' = new ++ ins_events ins /\ publications new = []) /\
  (inspectCh ins' = inspectCh ins \/
   (inspectCh ins = None /\ 0 < B /\ B mod uint64_of_int (inspectEvery ins) = 0 /\
    inspectCh ins' = Some (uint64_sub B (uint64_of_int (inspectEvery ins))))).
Proof.
  unfold handleScannerBlock, uint64_mod in H.
  cbn [inspectEvery set_latestBlockEventTime] in H.
  destruct (0 <? B) eqn:HB.
  - destruct (uint64_of_int (inspectEvery ins) =? 0); [discriminate|].
    destruct (B mod uint64_of_int (inspectEvery ins) =? 0) eqn:Hm.
    + unfold trySend in H. destruct ins as [[v|] t c le evs]; cbn in H |- *;
        injection H as <- <-; cbn.
      * repeat split; [|left; reflexivity].
        exists [Log LogAlreadyBusy; Log (LogTriggering B (uint64_sub B (uint64_of_int c)))].
        split; reflexivity.
      * repeat split; [|right; repeat split].
        -- exists [Log LogTriggered; Log (LogTriggering B (uint64_sub B (uint64_of_int c)))].
           split; reflexivity.
        -- apply Z.ltb_lt. exact HB.
        -- apply Z.eqb_eq. exact Hm.
    + injection H as <- <-. cbn. repeat split; [|left; reflexivity].
      exists []. split; reflexivity.
  - injection H as <- <-. cbn. repeat split; [|left; reflexivity].
    exists []. split; reflexivity.
Qed.

Lemma handleScannerBlock_slot_witness :
  exists ins',
    handleScannerBlock 7 100 (mkInspector (Some 50) 0 10 None []) = Normal (None, ins') /\
    inspectCh ins' = Some 50 /\ latestBlockEventTime ins' = 7.
Proof.
  eexists. split; [reflexivity|].
  destruct (handleScannerBlock_slot 7 100 (mkInspector (Some 50) 0 10 None []) None _ eq_refl)
    as [_ [Ht [_ [_ [_ [Hch|[Hn _]]]]]]].
  - split; [exact Hch|exact Ht].
  - discriminate Hn.
Defined.

(** After ten minutes without a block signal, a tick on an empty slot under
    a positive cadence fills it with block 0 when the endpoint cannot be
    dialled or read, with the current block when it is a multiple of the
    cadence, and leaves it empty otherwise. *)
Theorem inspectionTimeoutTick_stalled_empty (now : Z) (rpc : rpc_outcome) (ins : Inspector)
  (Hc : 0 < inspectEvery ins < 2 ^ 63)
  (Hst : latestBlockEventTime ins + blockEventWaitTimeout < now)
  (He : inspectCh ins = None) :
  inspectionTimeoutTick now rpc ins =
  TickContinue (set_inspectCh
                  (match rpc with
                   | DialFailed | BlockNumberFailed => Some 0
                   | BlockNumber n => if n mod inspectEvery ins =? 0 then Some n else None
                   end) ins).
Proof.
  unfold inspectionTimeoutTick, sendBlocking, uint64_mod.
  replace (latestBlockEventTime ins + blockEventWaitTimeout <? now) with true
    by (symmetry; apply Z.ltb_lt; exact Hst).
  rewrite He, (uint64_of_int_pos (inspectEvery ins) ltac:(lia)).
  replace (inspectEvery ins =? 0) with false by lia.
  destruct rpc as [| |n]; [reflexivity|reflexivity|].
  destruct (n mod inspectEvery ins =? 0); [reflexivity|].
  destruct ins as [ch t c le evs]. cbn in He |- *. rewrite He. reflexivity.
Qed.

Lemma inspectionTimeoutTick_stalled_empty_witness :
  let ins := mkInspector None 0 10 None [] in
  let now := blockEventWaitTimeout + second in
  inspectionTimeoutTick now (BlockNumber 120) ins = TickContinue (set_inspectCh (Some 120) ins) /\
  inspectionTimeoutTick now (BlockNumber 125) ins = TickContinue ins.
Proof.
  cbv zeta. split.
  - exact (inspectionTimeoutTick_stalled_empty (blockEventWaitTimeout + second) (BlockNumber 120)
             (mkInspector None 0 10 None []) ltac:(cbn; lia) ltac:(cbn; lia) eq_refl).
  - exact (inspectionTimeoutTick_stalled_empty (blockEventWaitTimeout + second) (BlockNumber 125)
             (mkInspector None 0 10 None []) ltac:(cbn; lia) ltac:(cbn; lia) eq_refl).
Defined.

(** The worker acts exactly when the slot holds a request; it drains the
    slot, so it is free for the next trigger once the step ends, and it
    never writes the health tracker, the cadence or the watchdog clock. *)
Theorem workerStep_drains (script : list attempt) (ins : Inspector) :
  (workerStep script ins = None <-> inspectCh ins = None) /\
  (forall o ins', workerStep script ins = Some (o, ins') ->
     inspectCh ins' = None /\ lastErr ins' = lastErr ins /\
     inspectEvery ins' = inspectEvery ins /\
     latestBlockEventTime ins' = latestBlockEventTime ins).
Proof.
  unfold workerStep. destruct (inspectCh ins) as [b|] eqn:Hch.
  - split.
    { split; [|intros H; discriminate H].
      destruct (retryInspection script (set_inspectCh None ins)) as [[[e|]|] i1];
        intros H; discriminate H. }
    intros o ins' H.
    destruct (retryInspection_keeps script (set_inspectCh None ins)) as [H1 [H2 [H3 H4]]].
    destruct (retryInspection script (set_inspectCh None ins)) as [[[e|]|] i1];
      injection H as <- <-; cbn in H1, H2, H3, H4 |- *; auto.
  - split; [split; reflexivity|]. intros o ins' H. discriminate H.
Qed.

(** The worker's retry ends at the first attempt that succeeds or fails
    past the five-minute ceiling: later attempts are never run. *)
Theorem workerStep_stops_at_terminal (pre : list attempt) (a : attempt) (post : list attempt)
  (ins : Inspector)
  (Hpre : Forall (fun a => exists e, at_err a = Some e /\ at_elapsed a <= maxElapsedTime) pre)
  (Ha : at_err a = None \/ maxElapsedTime < at_elapsed a) :
  workerStep (pre ++ a :: post) ins = workerStep (pre ++ [a]) ins.
Proof.
  unfold workerStep. destruct (inspectCh ins); [|reflexivity].
  rewrite (retryInspection_terminal pre a post _ Hpre Ha). reflexivity.
Qed.

Lemma workerStep_stops_at_terminal_witness :
  let e := ErrMsg "scan api unreachable" in
  let pre := [mkAttempt "r1" (Some e) (10 * second)] in
  let a := mkAttempt "r2" None (40 * second) in
  let post := [mkAttempt "r3" (Some e) (80 * second)] in
  Forall (fun a => exists e, at_err a = Some e /\ at_elapsed a <= maxElapsedTime) pre /\
  workerStep (pre ++ a :: post) (mkInspector (Some 90) 0 10 None []) =
  workerStep (pre ++ [a]) (mkInspector (Some 90) 0 10 None []).
Proof.
  cbv zeta.
  assert (Hpre : Forall (fun a => exists e, at_err a = Some e /\ at_elapsed a <= maxElapsedTime)
                   [mkAttempt "r1" (Some (ErrMsg "scan api unreachable")) (10 * second)]).
  { constructor; [|constructor]. eexists. split; [reflexivity|]. cbn. lia. }
  split; [exact Hpre|].
  exact (workerStep_stops_at_terminal
           [mkAttempt "r1" (Some (ErrMsg "scan api unreachable")) (10 * second)]
           (mkAttempt "r2" None (40 * second))
           [mkAttempt "r3" (Some (ErrMsg "scan api unreachable")) (80 * second)]
           (mkInspector (Some 90) 0 10 None []) Hpre (or_introl eq_refl)).
Defined.

End SchedulerFacts.

(** * Properties of the mock agent server *)
Module AgentServerFacts.

Import AgentServer.
Open Scope list_scope.

Lemma mapIndex_missing (m : list (string * string)) (k : string) :
  (forall v, ~ In (k, v) m) -> mapIndex m k = "".
Proof.
  induction m as [|[k' v'] m IH]; intros H; cbn; [reflexivity|].
  destruct (String.eqb_spec k' k) as [->|_].
  - exfalso. exact (H v' (or_introl eq_refl)).
  - apply IH. intros v Hv. exact (H v (or_intror Hv)).
Qed.

(** EvaluateAlert panics exactly when the request's event, its alert or its
    network is nil.  Otherwise it answers SUCCESS with at most one finding,
    the CRITICAL "supporting trace" one, present exactly when the alert's
    metadata maps "containerTraceSupported" to "1" and the chain ID is "1";
    metadata lacking the key gives no finding. *)
Theorem EvaluateAlert_spec (req : EvaluateAlertRequest) :
  (EvaluateAlert req = Inspector.Panic <->
   match req_Event req with
   | None => True
   | Some ev => ev_Alert ev = None \/ ev_Network ev = None
   end) /\
  (forall resp, EvaluateAlert req = Inspector.Normal resp ->
     resp_Status resp = ResponseStatus_SUCCESS /\
     (resp_Findings resp = [] \/ resp_Findings resp = [supportingTraceFinding]) /\
     (resp_Findings resp <> [] <->
      exists ev al nw, req_Event req = Some ev /\ ev_Alert ev = Some al /\
        ev_Network ev = Some nw /\
        mapIndex (al_Metadata al) "containerTraceSupported" = "1" /\ nw_ChainId nw = "1") /\
     (forall ev al, req_Event req = Some ev -> ev_Alert ev = Some al ->
        (forall v, ~ In ("containerTraceSupported", v) (al_Metadata al)) ->
        resp_Findings resp = [])).
Proof.
  destruct req as [[[[[md]|] [[cid]|]]|]]; cbn.
  - split; [split; [discriminate|intros [H|H]; discriminate H]|].
    intros resp H. injection H as <-. cbn [resp_Status resp_Findings].
    split; [reflexivity|]. split.
    { destruct (_ && _); [right|left]; reflexivity. }
    split; [split|].
    + destruct (String.eqb_spec (mapIndex md "containerTraceSupported") "1") as [Ht|Ht],
        (String.eqb_spec cid "1") as [Hm|Hm]; cbn; intros Hne;
        try (exfalso; apply Hne; reflexivity).
      exists (mkAlertEvent (Some (mkAlert md)) (Some (mkNetwork cid))), (mkAlert md),
        (mkNetwork cid).
      repeat split; assumption.
    + intros [ev [al [nw [Hev [Hal [Hnw [H1 H2]]]]]]].
      injection Hev as <-. injection Hal as <-. injection Hnw as <-. cbn in H1, H2.
      rewrite H1, H2. cbn. discriminate.
    + intros ev al Hev Hal Hk. injection Hev as <-. injection Hal as <-. cbn in Hk.
      rewrite (mapIndex_missing md _ Hk). reflexivity.
  - split; [split; [intros _; right; reflexivity|reflexivity]|]. intros resp H; discriminate H.
  - split; [split; [intros _; left; reflexivity|reflexivity]|]. intros resp H; discriminate H.
  - split; [split; [intros _; left; reflexivity|reflexivity]|]. intros resp H; discriminate H.
  - split; [split; [intros _; exact I|reflexivity]|]. intros resp H; discriminate H.
Qed.

End AgentServerFacts.
